(** * Flapster: a shallow embedding of the simulation core of [script.js]

    The development follows the layout of the source file: configuration
    (§1), the single mutable game state (§2), the game objects (§4), the
    collision predicate (§5), the per-frame update with the death
    sequence (§6), input handling (§8) and boot/reset (§9).  The drawing
    code (§3, §7) only reads the state and is left out.

    Conventions of the embedding.

    - A JavaScript number that carries a coordinate, a velocity, an angle
      or a time is an exact rational ([Q]); the rounding of IEEE doubles
      is not represented.  [Math.min] and [Math.max] are [Qmin] and [Qmax].
      Where a statement depends on the rounding, the code is also given
      in binary64 (module [F64], on the primitive floats).
    - The score is only ever assigned 0 and incremented, it is an integer
      ([Z]).  The best score comes out of [parseInt] and can be [NaN], so
      it has the type [jsint] with an explicit [NaN].
    - Ambient inputs are explicit arguments: the reading of
      [performance.now()] is [now], the draw of [Math.random()] is [rnd],
      the value of [Math.sin] in the idle animation is [sinv].
    - The module-level globals ([state], [groundScroll], [elapsed]), the
      [localStorage] object and the pending [setTimeout] callbacks are the
      fields of one record, [machine], that every operation threads. *)

From Stdlib Require Import ZArith QArith Qminmax Lqa Lia String Ascii List Bool.
From Stdlib Require DecimalString DecimalPos.
From Stdlib Require PrimFloat FloatOps SpecFloat.
From stdpp Require Import base option list strings gmap.

Open Scope Q_scope.

(** ** JavaScript comparison operators on numbers *)

Definition Qleb (a b : Q) : bool := Qle_bool a b.
Definition Qltb (a b : Q) : bool := negb (Qle_bool b a).

Infix "<=?" := Qleb (at level 70, no associativity) : Q_scope.
Infix "<?" := Qltb (at level 70, no associativity) : Q_scope.

Definition Math_min : Q -> Q -> Q := Qmin.
Definition Math_max : Q -> Q -> Q := Qmax.

(** ** §1 CONFIG *)

Module CFG.
Definition W : Q := 400.
Definition H : Q := 600.

Definition BIRD_X : Q := 90.
Definition BIRD_RADIUS : Q := 14.
Definition JUMP_VEL : Q := -8.5.
Definition GRAVITY : Q := 0.42.
Definition MAX_FALL_VEL : Q := 12.
Definition TILT_UP : Q := -25.
Definition TILT_DOWN : Q := 70.

Definition PIPE_W : Q := 58.
Definition PIPE_GAP : Q := 148.
Definition PIPE_SPEED : Q := 2.6.
Definition PIPE_SPAWN_X : Q := 420.
Definition PIPE_INTERVAL : Q := 1700.

Definition GROUND_H : Q := 80.
Definition GROUND_Y : Q := 520.

Definition WING_FRAMES : Z := 3.
Definition WING_SPEED : Q := 120.

Definition SCORE_X_THRESHOLD : Q := 90.
End CFG.

(** ** §2 STATE *)

Inductive Phase := START | PLAYING | DEAD.

Definition Phase_eqb (a b : Phase) : bool :=
  match a, b with
  | START, START | PLAYING, PLAYING | DEAD, DEAD => true
  | _, _ => false
  end.

(** An integer-valued JavaScript number, or [NaN]. *)
Inductive jsint := NaN | Int (z : Z).

(** [a > b] on numbers: false as soon as one side is [NaN]. *)
Definition js_gt (a b : jsint) : bool :=
  match a, b with
  | Int x, Int y => (y <? x)%Z
  | _, _ => false
  end.

(** [Math.max(a, b)]: [NaN] as soon as one side is [NaN]. *)
Definition js_max (a b : jsint) : jsint :=
  match a, b with
  | Int x, Int y => Int (Z.max x y)
  | _, _ => NaN
  end.

(** [String(n)]. *)
Definition String_ (n : jsint) : string :=
  match n with
  | NaN => "NaN"
  | Int z => DecimalString.NilZero.string_of_int (Z.to_int z)
  end.

Module Bird.
Record t := mk {
  x : Q;
  y : Q;
  vy : Q;
  angle : Q;
  wingFrame : Z;
  wingTimer : Q;
  alive : bool;
  deathY : Q;
  deathVY : Q
}.
End Bird.

Module Pipe.
Record t := mk {
  x : Q;
  gapTop : Q;
  gapBot : Q;
  scored : bool
}.
End Pipe.

Module Cloud.
Record t := mk {
  x : Q;
  y : Q;
  scale : Q;
  speed : Q
}.
End Cloud.

(** The [state] object.  [stars] is written once at boot from
    [Math.random] and read by the drawing code only; it is not kept.
    [animFrame] is the handle of the pending animation frame. *)
Record State := mkState {
  phase : Phase;
  bird : Bird.t;
  pipes : list Pipe.t;
  clouds : list Cloud.t;
  score : Z;
  bestScore : jsint;
  lastPipeTime : Q;
  lastFrameTime : Q
}.

(** ** The persistent store

    [localStorage] is a string-keyed map; the calls of [setItem] are also
    logged, newest first, so that a write is observable even when it does
    not change the stored value. *)
Record Storage := mkStorage {
  items : gmap string string;
  setItem_calls : list (string * string)
}.

Definition getItem (ls : Storage) (key : string) : option string :=
  items ls !! key.

Definition setItem (ls : Storage) (key value : string) : Storage :=
  {| items := <[key := value]> (items ls);
     setItem_calls := (key, value) :: setItem_calls ls |}.

(** The only callback this program hands to [setTimeout]. *)
Inductive callback := resetGame_cb.

(** All mutable program state: the [state] object, the two module-level
    [let]s, the store and the timers armed by [setTimeout] (due time and
    callback, in arming order). *)
Record machine := mkMachine {
  state : State;
  groundScroll : Q;
  elapsed : Q;
  localStorage : Storage;
  timers : list (Q * callback)
}.

(** ** [parseInt(s, 10)]

    Leading white space is skipped, one sign is accepted, then the longest
    run of decimal digits is read; with no digit the result is [NaN].
    (White space is the ASCII part of the ECMAScript set.) *)

Definition is_white_space (c : ascii) : bool :=
  let n := nat_of_ascii c in
  (Nat.leb 9 n && Nat.leb n 13) || Nat.eqb n 32.

Fixpoint skip_white_space (s : string) : string :=
  match s with
  | String c r => if is_white_space c then skip_white_space r else s
  | EmptyString => s
  end.

Definition digit_value (c : ascii) : option Z :=
  let n := nat_of_ascii c in
  if Nat.leb 48 n && Nat.leb n 57 then Some (Z.of_nat (n - 48)) else None.

(** Value of the longest digit prefix; [acc] is [None] until a digit has
    been read. *)
Fixpoint read_digits (s : string) (acc : option Z) : option Z :=
  match s with
  | String c r =>
      match digit_value c with
      | Some d => read_digits r (Some (10 * default 0%Z acc + d)%Z)
      | None => acc
      end
  | EmptyString => acc
  end.

Definition parseInt10 (s : string) : jsint :=
  let s1 := skip_white_space s in
  let '(negative, s2) :=
    match s1 with
    | String "-" r => (true, r)
    | String "+" r => (false, r)
    | _ => (false, s1)
    end in
  match read_digits s2 None with
  | None => NaN
  | Some n => Int (if negative then - n else n)%Z
  end.

(** The initialiser of [state.bestScore]:
    [parseInt(localStorage.getItem('flapster_best') || '0', 10)].
    [||] takes its right operand when the left one is [null] or the empty
    string. *)
Definition initial_bestScore (ls : Storage) : jsint :=
  parseInt10
    (match getItem ls "flapster_best" with
     | Some EmptyString | None => "0"
     | Some s => s
     end)%string.

(** ** §4 GAME OBJECTS *)

Definition createBird : Bird.t :=
  {| Bird.x := CFG.BIRD_X;
     Bird.y := 260;
     Bird.vy := 0;
     Bird.angle := 0;
     Bird.wingFrame := 0;
     Bird.wingTimer := 0;
     Bird.alive := true;
     Bird.deathY := 0;
     Bird.deathVY := 0 |}.

(** [rnd] is the value returned by [Math.random()]. *)
Definition createPipe (rnd : Q) : Pipe.t :=
  let minTop := 60 in
  let maxTop := CFG.GROUND_Y - CFG.PIPE_GAP - 60 in
  let gapTop := minTop + rnd * (maxTop - minTop) in
  {| Pipe.x := CFG.PIPE_SPAWN_X;
     Pipe.gapTop := gapTop;
     Pipe.gapBot := gapTop + CFG.PIPE_GAP;
     Pipe.scored := false |}.

Definition generateClouds : list Cloud.t :=
  [ Cloud.mk 50 90 1.1 0.3;
    Cloud.mk 200 130 0.8 0.5;
    Cloud.mk 310 80 1.3 0.25;
    Cloud.mk 130 200 0.7 0.4 ].

(** ** §5 COLLISION DETECTION *)

(** The body of the [for (const pipe of pipes)] loop: [true] when one of
    its two [return true] statements is reached. *)
Definition pipe_collision (bx by_ br : Q) (pipe : Pipe.t) : bool :=
  let px := Pipe.x pipe in
  let pw := CFG.PIPE_W in
  let nearTopX := Math_max px (Math_min bx (px + pw)) in
  let nearTopY := Math_max 0 (Math_min by_ (Pipe.gapTop pipe)) in
  let dTopX := bx - nearTopX in
  let dTopY := by_ - nearTopY in
  if dTopX * dTopX + dTopY * dTopY <? br * br then true
  else
    let nearBotX := Math_max px (Math_min bx (px + pw)) in
    let nearBotY := Math_max (Pipe.gapBot pipe) (Math_min by_ CFG.GROUND_Y) in
    let dBotX := bx - nearBotX in
    let dBotY := by_ - nearBotY in
    if dBotX * dBotX + dBotY * dBotY <? br * br then true else false.

Fixpoint pipes_collision (bx by_ br : Q) (pipes : list Pipe.t) : bool :=
  match pipes with
  | [] => false
  | pipe :: rest =>
      if pipe_collision bx by_ br pipe then true
      else pipes_collision bx by_ br rest
  end.

Definition checkCollision (bird : Bird.t) (pipes : list Pipe.t) : bool :=
  let bx := Bird.x bird in
  let by_ := Bird.y bird in
  let br := CFG.BIRD_RADIUS in
  if CFG.GROUND_Y <=? by_ + br then true
  else if by_ - br <=? 0 then true
  else pipes_collision bx by_ br pipes.

(** ** §6 CORE GAME LOOP *)

(** [killBird()]: the death sequence. *)
Definition killBird (m : machine) : machine :=
  let s := state m in
  let b := bird s in
  let b' := Bird.mk (Bird.x b) (Bird.y b) (Bird.vy b) (Bird.angle b)
              (Bird.wingFrame b) (Bird.wingTimer b) false
              (Bird.deathY b) (Bird.deathVY b) in
  if js_gt (Int (score s)) (bestScore s) then
    let best := Int (score s) in
    {| state := mkState DEAD b' (pipes s) (clouds s) (score s) best
                  (lastPipeTime s) (lastFrameTime s);
       groundScroll := groundScroll m;
       elapsed := elapsed m;
       localStorage := setItem (localStorage m) "flapster_best" (String_ best);
       timers := timers m |}
  else
    {| state := mkState DEAD b' (pipes s) (clouds s) (score s) (bestScore s)
                  (lastPipeTime s) (lastFrameTime s);
       groundScroll := groundScroll m;
       elapsed := elapsed m;
       localStorage := localStorage m;
       timers := timers m |}.

(** The three statements of the body of the pipe loop, for the pipe
    [pipes[i]]: the moved pipe after the scoring step, the number added to
    the score, and whether [splice] removes it. *)
Definition pipe_body (p : Pipe.t) : Pipe.t * Z * bool :=
  let p1 := Pipe.mk (Pipe.x p - CFG.PIPE_SPEED) (Pipe.gapTop p) (Pipe.gapBot p)
              (Pipe.scored p) in
  let '(p2, inc) :=
    if negb (Pipe.scored p1) && (Pipe.x p1 + CFG.PIPE_W <? CFG.BIRD_X)
    then (Pipe.mk (Pipe.x p1) (Pipe.gapTop p1) (Pipe.gapBot p1) true, 1%Z)
    else (p1, 0%Z) in
  (p2, inc, Pipe.x p2 + CFG.PIPE_W <? -20).

(** [for (let i = pipes.length - 1; i >= 0; i--) { ... }]: [n] is [i + 1],
    the number of iterations left.  The pipe is updated in place and
    [splice(i, 1)] deletes index [i].  An index past the end, where the
    script would throw on [pipes[i].x], ends the loop; starting from
    [pipes.length - 1] it does not arise. *)
Fixpoint pipe_loop (n : nat) (pipes : list Pipe.t) (score : Z)
  : list Pipe.t * Z :=
  match n with
  | O => (pipes, score)
  | S i =>
      match pipes !! i with
      | None => (pipes, score)
      | Some p =>
          let '(p2, inc, off) := pipe_body p in
          let pipes' := if off then delete i pipes else <[i := p2]> pipes in
          pipe_loop i pipes' (score + inc)%Z
      end
  end.

Definition update_cloud (c : Cloud.t) : Cloud.t :=
  let x1 := Cloud.x c - Cloud.speed c in
  Cloud.mk (if x1 <? -150 then CFG.W + 80 else x1)
           (Cloud.y c) (Cloud.scale c) (Cloud.speed c).

(** The bird after the physics, tilt and wing statements of [update]. *)
Definition update_bird (dt : Q) (b : Bird.t) : Bird.t :=
  let vy := Math_min (Bird.vy b + CFG.GRAVITY) CFG.MAX_FALL_VEL in
  let y := Bird.y b + vy in
  let targetAngle := Math_max CFG.TILT_UP (Math_min CFG.TILT_DOWN (vy * 4)) in
  let angle := Bird.angle b + (targetAngle - Bird.angle b) * 0.18 in
  let wingTimer := Bird.wingTimer b + dt in
  if CFG.WING_SPEED <=? wingTimer then
    Bird.mk (Bird.x b) y vy angle
            (Z.rem (Bird.wingFrame b + 1) CFG.WING_FRAMES) 0
            (Bird.alive b) (Bird.deathY b) (Bird.deathVY b)
  else
    Bird.mk (Bird.x b) y vy angle (Bird.wingFrame b) wingTimer
            (Bird.alive b) (Bird.deathY b) (Bird.deathVY b).

(** [update(dt)]: one simulation tick. *)
Definition update (dt now rnd : Q) (m : machine) : machine :=
  let s := state m in
  if negb (Phase_eqb (phase s) PLAYING) then m
  else
    let bird1 := update_bird dt (bird s) in
    let clouds1 := map update_cloud (clouds s) in
    let groundScroll1 := groundScroll m + CFG.PIPE_SPEED in
    let '(pipes1, lastPipeTime1) :=
      if CFG.PIPE_INTERVAL <=? now - lastPipeTime s
      then (pipes s ++ [createPipe rnd], now)
      else (pipes s, lastPipeTime s) in
    let '(pipes2, score1) := pipe_loop (length pipes1) pipes1 (score s) in
    let m1 :=
      {| state := mkState (phase s) bird1 pipes2 clouds1 score1 (bestScore s)
                    lastPipeTime1 (lastFrameTime s);
         groundScroll := groundScroll1;
         elapsed := elapsed m;
         localStorage := localStorage m;
         timers := timers m |} in
    if checkCollision bird1 pipes2 then killBird m1 else m1.

(** [loop(timestamp)] up to the call of [render]: the frame time is capped,
    the start screen animates the idle bird, then [update] runs. *)
Definition loop (timestamp now rnd sinv : Q) (m : machine) : machine :=
  let s := state m in
  let dt := Math_min (timestamp - lastFrameTime s) 50 in
  let elapsed1 := elapsed m + dt in
  let m1 :=
    if Phase_eqb (phase s) START then
      let b := bird s in
      let wingTimer := Bird.wingTimer b + dt in
      let b1 :=
        if CFG.WING_SPEED <=? wingTimer then
          Bird.mk (Bird.x b) (260 + sinv * 10) (Bird.vy b) (Bird.angle b)
                  (Z.rem (Bird.wingFrame b + 1) CFG.WING_FRAMES) 0
                  (Bird.alive b) (Bird.deathY b) (Bird.deathVY b)
        else
          Bird.mk (Bird.x b) (260 + sinv * 10) (Bird.vy b) (Bird.angle b)
                  (Bird.wingFrame b) wingTimer
                  (Bird.alive b) (Bird.deathY b) (Bird.deathVY b) in
      let drift (c : Cloud.t) :=
        let x1 := Cloud.x c - Cloud.speed c * 0.4 in
        Cloud.mk (if x1 <? -150 then CFG.W + 80 else x1)
                 (Cloud.y c) (Cloud.scale c) (Cloud.speed c) in
      {| state := mkState (phase s) b1 (pipes s) (map drift (clouds s))
                    (score s) (bestScore s) (lastPipeTime s) timestamp;
         groundScroll := groundScroll m + 0.6;
         elapsed := elapsed1;
         localStorage := localStorage m;
         timers := timers m |}
    else
      {| state := mkState (phase s) (bird s) (pipes s) (clouds s)
                    (score s) (bestScore s) (lastPipeTime s) timestamp;
         groundScroll := groundScroll m;
         elapsed := elapsed1;
         localStorage := localStorage m;
         timers := timers m |} in
  update dt now rnd m1.

(** ** §9 BOOT / RESET *)

Definition with_vy (vy : Q) (b : Bird.t) : Bird.t :=
  Bird.mk (Bird.x b) (Bird.y b) vy (Bird.angle b) (Bird.wingFrame b)
          (Bird.wingTimer b) (Bird.alive b) (Bird.deathY b) (Bird.deathVY b).

(** [initState()]. *)
Definition initState (now : Q) (m : machine) : machine :=
  let s := state m in
  {| state := mkState START createBird [] generateClouds 0 (bestScore s)
                now (lastFrameTime s);
     groundScroll := groundScroll m;
     elapsed := elapsed m;
     localStorage := localStorage m;
     timers := timers m |}.

(** [beginGame()]: START to PLAYING. *)
Definition beginGame (now : Q) (m : machine) : machine :=
  let s := state m in
  {| state := mkState PLAYING (with_vy CFG.JUMP_VEL (bird s)) (pipes s)
                (clouds s) (score s) (bestScore s) (now + 800)
                (lastFrameTime s);
     groundScroll := groundScroll m;
     elapsed := elapsed m;
     localStorage := localStorage m;
     timers := timers m |}.

(** [resetGame()]: restart after death. *)
Definition resetGame (now : Q) (m : machine) : machine :=
  let s := state m in
  {| state := mkState PLAYING (with_vy CFG.JUMP_VEL createBird) []
                (clouds s) 0 (bestScore s) (now + 800) (lastFrameTime s);
     groundScroll := groundScroll m;
     elapsed := elapsed m;
     localStorage := localStorage m;
     timers := timers m |}.

(** The program at the end of the script: the [state] literal is
    evaluated over the store [ls], [initState] runs, and the frame clock is
    set.  [now] and [now'] are the two readings of [performance.now()]. *)
Definition boot (ls : Storage) (now now' : Q) : machine :=
  let m0 :=
    {| state := mkState START createBird [] [] 0 (initial_bestScore ls) 0 0;
       groundScroll := 0;
       elapsed := 0;
       localStorage := ls;
       timers := [] |} in
  let m1 := initState now m0 in
  let s := state m1 in
  {| state := mkState (phase s) (bird s) (pipes s) (clouds s) (score s)
                (bestScore s) (lastPipeTime s) now';
     groundScroll := groundScroll m1;
     elapsed := elapsed m1;
     localStorage := localStorage m1;
     timers := timers m1 |}.

(** ** §8 INPUT HANDLING *)

(** [setTimeout(cb, delay)] at time [now]. *)
Definition setTimeout (cb : callback) (delay now : Q) (m : machine) : machine :=
  {| state := state m;
     groundScroll := groundScroll m;
     elapsed := elapsed m;
     localStorage := localStorage m;
     timers := timers m ++ [(now + delay, cb)] |}.

(** [handleFlap()], handled at time [now]. *)
Definition handleFlap (now : Q) (m : machine) : machine :=
  let s := state m in
  if Phase_eqb (phase s) START then beginGame now m
  else if Phase_eqb (phase s) DEAD then setTimeout resetGame_cb 80 now m
  else if Phase_eqb (phase s) PLAYING && Bird.alive (bird s) then
    let b := bird s in
    {| state := mkState (phase s)
                  (Bird.mk (Bird.x b) (Bird.y b) CFG.JUMP_VEL CFG.TILT_UP
                     (Bird.wingFrame b) (Bird.wingTimer b) (Bird.alive b)
                     (Bird.deathY b) (Bird.deathVY b))
                  (pipes s) (clouds s) (score s) (bestScore s)
                  (lastPipeTime s) (lastFrameTime s);
       groundScroll := groundScroll m;
       elapsed := elapsed m;
       localStorage := localStorage m;
       timers := timers m |}
  else m.

(** ** The event loop

    The browser delivers three kinds of tasks to the program: a key or
    pointer press, an animation frame, and the expiry of a timer.  A timer
    task at time [now] runs the oldest armed callback if it is due; all
    timers of this program have the same delay, so the oldest is the first
    one due. *)
Inductive event :=
| Flap (now : Q)
| AnimationFrame (timestamp now rnd sinv : Q)
| Timeout (now : Q).

Definition run_callback (cb : callback) (now : Q) (m : machine) : machine :=
  match cb with
  | resetGame_cb => resetGame now m
  end.

Definition fire_timer (now : Q) (m : machine) : machine :=
  match timers m with
  | (due, cb) :: rest =>
      if due <=? now then
        run_callback cb now
          {| state := state m;
             groundScroll := groundScroll m;
             elapsed := elapsed m;
             localStorage := localStorage m;
             timers := rest |}
      else m
  | [] => m
  end.

Definition step (m : machine) (e : event) : machine :=
  match e with
  | Flap now => handleFlap now m
  | AnimationFrame timestamp now rnd sinv => loop timestamp now rnd sinv m
  | Timeout now => fire_timer now m
  end.

Definition run (m : machine) (es : list event) : machine :=
  fold_left step es m.

(** [Math.random()] returns a number in the half-open interval from 0 to 1. *)
Definition event_ok (e : event) : Prop :=
  match e with
  | AnimationFrame _ _ rnd _ => 0 <= rnd /\ rnd < 1
  | _ => True
  end.

(** ** Notions used in the statements *)

(** The right edge of a pipe. *)
Definition right_edge (p : Pipe.t) : Q := Pipe.x p + CFG.PIPE_W.

(** What one tick leaves of a pipe: [None] when [splice] removed it. *)
Definition tick_pipe (p : Pipe.t) : option Pipe.t :=
  let '(p2, _, off) := pipe_body p in if off then None else Some p2.

(** What one tick adds to the score for a pipe. *)
Definition tick_inc (p : Pipe.t) : Z := snd (fst (pipe_body p)).

Definition sumZ (l : list Z) : Z := foldr Z.add 0%Z l.

(** The pipe list at the moment the pipe loop of [update] starts. *)
Definition spawned (now rnd : Q) (s : State) : list Pipe.t :=
  if CFG.PIPE_INTERVAL <=? now - lastPipeTime s
  then pipes s ++ [createPipe rnd]
  else pipes s.

(** The horizontal position of a pipe after [k] ticks. *)
Definition x_after (k : nat) (x : Q) : Q :=
  Nat.iter k (fun x => x - CFG.PIPE_SPEED) x.

(** In tick number [k] (counted from 0) the right edge of the pipe is
    strictly left of the bird. *)
Definition passed_in (k : nat) (p : Pipe.t) : Prop :=
  x_after (S k) (Pipe.x p) + CFG.PIPE_W < CFG.BIRD_X.

(** The score increments a pipe receives tick by tick, over at most [n]
    ticks, until it is removed from the list. *)
Fixpoint score_trace (n : nat) (p : Pipe.t) : list Z :=
  match n with
  | O => []
  | S n' =>
      let '(p2, inc, off) := pipe_body p in
      inc :: (if off then [] else score_trace n' p2)
  end.

(** The gap of a pipe has the configured height and keeps the margins. *)
Definition gap_ok (p : Pipe.t) : Prop :=
  Pipe.gapBot p - Pipe.gapTop p == CFG.PIPE_GAP /\
  60 <= Pipe.gapTop p /\
  Pipe.gapTop p <= CFG.GROUND_Y - CFG.PIPE_GAP - 60.

(** An axis-aligned rectangle, a point, and the point of the rectangle
    closest to a given one: each coordinate is clamped to the sides. *)
Record rect := mkRect { x0 : Q; y0 : Q; x1 : Q; y1 : Q }.

Definition in_rect (r : rect) (qx qy : Q) : Prop :=
  x0 r <= qx /\ qx <= x1 r /\ y0 r <= qy /\ qy <= y1 r.

Definition clamp (lo hi v : Q) : Q :=
  if v <? lo then lo else if hi <? v then hi else v.

Definition closest_x (r : rect) (cx : Q) : Q := clamp (x0 r) (x1 r) cx.
Definition closest_y (r : rect) (cy : Q) : Q := clamp (y0 r) (y1 r) cy.

Definition sqdist (ax ay bx by_ : Q) : Q :=
  (ax - bx) * (ax - bx) + (ay - by_) * (ay - by_).

(** The two bodies of a pipe: from the ceiling down to the gap, and from
    the gap down to the ground. *)
Definition top_rect (p : Pipe.t) : rect :=
  mkRect (Pipe.x p) 0 (Pipe.x p + CFG.PIPE_W) (Pipe.gapTop p).

Definition bottom_rect (p : Pipe.t) : rect :=
  mkRect (Pipe.x p) (Pipe.gapBot p) (Pipe.x p + CFG.PIPE_W) CFG.GROUND_Y.

(** The circle of centre [(cx, cy)] and radius [rad] comes strictly
    closer than [rad] to the closest point of [r]. *)
Definition circle_hits (cx cy rad : Q) (r : rect) : Prop :=
  sqdist cx cy (closest_x r cx) (closest_y r cy) < rad * rad.

(** The machine at the end of the pipe loop of a PLAYING tick, before the
    collision test, with the loop written as a map over the pipes. *)
Definition after_loop (dt now rnd : Q) (m : machine) : machine :=
  let s := state m in
  let l := spawned now rnd s in
  {| state :=
       mkState (phase s) (update_bird dt (bird s)) (omap tick_pipe l)
         (map update_cloud (clouds s))
         (score s + sumZ (map tick_inc l))%Z (bestScore s)
         (if CFG.PIPE_INTERVAL <=? now - lastPipeTime s
          then now else lastPipeTime s)
         (lastFrameTime s);
     groundScroll := groundScroll m + CFG.PIPE_SPEED;
     elapsed := elapsed m;
     localStorage := localStorage m;
     timers := timers m |}.

(** ** Sample states *)

Definition empty_store : Storage := mkStorage ∅ [].

Definition garbled_store : Storage :=
  setItem empty_store "flapster_best" "abc".

Definition bird_at (y vy : Q) : Bird.t :=
  Bird.mk CFG.BIRD_X y vy 0 0 0 true 0 0.

Definition playing (b : Bird.t) (ps : list Pipe.t) (sc : Z) (best : jsint)
  : machine :=
  {| state := mkState PLAYING b ps generateClouds sc best 0 0;
     groundScroll := 0;
     elapsed := 0;
     localStorage := empty_store;
     timers := [] |}.

(** A run about to end: the bird is one tick above the ground, with three
    points scored and a best score of one; and the state the frame at time
    1000 leaves it in. *)
Definition dying : machine :=
  playing (bird_at 506 0) [Pipe.mk 20 100 248 true] 3 (Int 1).

Definition dead_at_1000 : machine :=
  run dying [AnimationFrame 1000 1000 0.5 0].

(** ** Further notions: the rest of the frame and the screens *)

(** The machine after the statements of [loop] that precede the call of
    [update]: the frame clock, and on the start screen the idle bird, the
    drifting clouds and the ground. *)
Definition idle (timestamp sinv : Q) (m : machine) : machine :=
  let s := state m in
  let dt := Math_min (timestamp - lastFrameTime s) 50 in
  if Phase_eqb (phase s) START then
    let b := bird s in
    let wingTimer := Bird.wingTimer b + dt in
    let b1 :=
      if CFG.WING_SPEED <=? wingTimer then
        Bird.mk (Bird.x b) (260 + sinv * 10) (Bird.vy b) (Bird.angle b)
                (Z.rem (Bird.wingFrame b + 1) CFG.WING_FRAMES) 0
                (Bird.alive b) (Bird.deathY b) (Bird.deathVY b)
      else
        Bird.mk (Bird.x b) (260 + sinv * 10) (Bird.vy b) (Bird.angle b)
                (Bird.wingFrame b) wingTimer
                (Bird.alive b) (Bird.deathY b) (Bird.deathVY b) in
    let drift (c : Cloud.t) :=
      let x1 := Cloud.x c - Cloud.speed c * 0.4 in
      Cloud.mk (if x1 <? -150 then CFG.W + 80 else x1)
               (Cloud.y c) (Cloud.scale c) (Cloud.speed c) in
    {| state := mkState (phase s) b1 (pipes s) (map drift (clouds s))
                  (score s) (bestScore s) (lastPipeTime s) timestamp;
       groundScroll := groundScroll m + 0.6;
       elapsed := elapsed m + dt;
       localStorage := localStorage m;
       timers := timers m |}
  else
    {| state := mkState (phase s) (bird s) (pipes s) (clouds s)
                  (score s) (bestScore s) (lastPipeTime s) timestamp;
       groundScroll := groundScroll m;
       elapsed := elapsed m + dt;
       localStorage := localStorage m;
       timers := timers m |}.

(** [a === b] on numbers: false as soon as one side is [NaN]. *)
Definition js_eq (a b : jsint) : bool :=
  match a, b with
  | Int x, Int y => (x =? y)%Z
  | _, _ => false
  end.

(** [isNew] of [drawGameOverScreen]:
    [state.score === state.bestScore && state.score > 0]. *)
Definition isNew (s : State) : bool :=
  js_eq (Int (score s)) (bestScore s) && js_gt (Int (score s)) (Int 0).

(** In tick number [k] (counted from 0) the right edge of the pipe is
    strictly left of -20, so that the tick removes the pipe. *)
Definition removed_in (k : nat) (p : Pipe.t) : Prop :=
  x_after (S k) (Pipe.x p) + CFG.PIPE_W < -20.

(** The order in which the best score moves: an integer best score can
    only grow, and [NaN] stays [NaN]. *)
Definition best_le (a b : jsint) : Prop :=
  match a, b with
  | Int x, Int y => (x <= y)%Z
  | NaN, NaN => True
  | _, _ => False
  end.

(** The sign that [parseInt] accepts in front of the digits. *)
Definition strip_sign (s : string) : string :=
  match s with
  | String "-" r => r
  | String "+" r => r
  | _ => s
  end.

Definition negative_sign (s : string) : bool :=
  match s with
  | String "-" _ => true
  | _ => false
  end.

(** The kind of an event. *)
Definition is_flap (e : event) : bool :=
  match e with Flap _ => true | _ => false end.

Definition is_frame (e : event) : bool :=
  match e with AnimationFrame _ _ _ _ => true | _ => false end.

Definition is_timeout (e : event) : bool :=
  match e with Timeout _ => true | _ => false end.

(** [Math.random()] is in the half-open interval from 0 to 1 and
    [Math.sin] between -1 and 1. *)
Definition event_in_range (e : event) : Prop :=
  match e with
  | AnimationFrame _ _ rnd sinv =>
      0 <= rnd /\ rnd < 1 /\ -1 <= sinv /\ sinv <= 1
  | _ => True
  end.

(** What holds of the bird, of a cloud and of a pipe in every state the
    program reaches. *)
Definition bird_ok (b : Bird.t) : Prop :=
  Bird.x b = CFG.BIRD_X /\
  CFG.JUMP_VEL <= Bird.vy b /\ Bird.vy b <= CFG.MAX_FALL_VEL /\
  CFG.TILT_UP <= Bird.angle b /\ Bird.angle b <= CFG.TILT_DOWN /\
  (0 <= Bird.wingFrame b < CFG.WING_FRAMES)%Z.

Definition cloud_ok (c : Cloud.t) : Prop :=
  -150 <= Cloud.x c /\ Cloud.x c <= CFG.W + 80 /\ 0 <= Cloud.speed c.

Definition pipe_ok (p : Pipe.t) : Prop :=
  Pipe.scored p = (right_edge p <? CFG.BIRD_X) /\
  -20 <= right_edge p /\
  right_edge p <= CFG.PIPE_SPAWN_X + CFG.PIPE_W.

Definition machine_ok (m : machine) : Prop :=
  let s := state m in
  bird_ok (bird s) /\
  Bird.alive (bird s) = negb (Phase_eqb (phase s) DEAD) /\
  (0 <= score s)%Z /\
  (phase s = START -> pipes s = [] /\ score s = 0%Z /\ timers m = []) /\
  (Forall cloud_ok (clouds s) /\ length (clouds s) = 4%nat) /\
  Forall pipe_ok (pipes s) /\
  initial_bestScore (localStorage m) = bestScore s /\
  (phase s = DEAD -> js_gt (Int (score s)) (bestScore s) = false).

(** On the start screen the bird bobs around 260 and there are no pipes;
    while PLAYING the bird touches nothing. *)
Definition collision_free (m : machine) : Prop :=
  let s := state m in
  (phase s = START ->
   250 <= Bird.y (bird s) /\ Bird.y (bird s) <= 270 /\ pipes s = []) /\
  (phase s = PLAYING -> checkCollision (bird s) (pipes s) = false).

(** A whole run for the examples: the player starts the game and flaps
    before every frame (16 ms apart), so that the bird climbs into the
    ceiling; it gets there in frame number [31]. *)
Definition climbing (n : nat) : list event :=
  flat_map (fun k : nat =>
              let ts := inject_Z (16 * Z.of_nat k) in
              [Flap ts; AnimationFrame (ts + 8) (ts + 8) 0.5 0])
           (seq 1 n).

Definition climbing_run : list event := climbing 31.

(** ** The pipe in binary64

    [createPipe] and the body of the pipe loop once more, in the numbers
    the program computes with: every operation rounds to the nearest
    binary64 value.  [exact] is the rational a finite binary64 value
    stands for. *)
Module F64.
Import PrimFloat.
#[local] Set Warnings "-inexact-float".

Record pipe := mkPipe {
  x : float;
  gapTop : float;
  gapBot : float;
  scored : bool
}.

Definition BIRD_X : float := 90%float.
Definition PIPE_W : float := 58%float.
Definition PIPE_GAP : float := 148%float.
Definition PIPE_SPEED : float := 2.6%float.
Definition PIPE_SPAWN_X : float := 420%float.
Definition GROUND_Y : float := 520%float.

Definition zero : float := 0%float.
Definition one : float := 1%float.

Definition createPipe (rnd : float) : pipe :=
  let minTop := 60%float in
  let maxTop := (GROUND_Y - PIPE_GAP - 60)%float in
  let gapTop := (minTop + rnd * (maxTop - minTop))%float in
  {| x := PIPE_SPAWN_X;
     gapTop := gapTop;
     gapBot := (gapTop + PIPE_GAP)%float;
     scored := false |}.

Definition pipe_body (p : pipe) : pipe * Z * bool :=
  let p1 := mkPipe (x p - PIPE_SPEED)%float (gapTop p) (gapBot p) (scored p) in
  let '(p2, inc) :=
    if negb (scored p1) && (x p1 + PIPE_W <? BIRD_X)%float
    then (mkPipe (x p1) (gapTop p1) (gapBot p1) true, 1%Z)
    else (p1, 0%Z) in
  (p2, inc, (x p2 + PIPE_W <? -20)%float).

Definition exact (f : float) : option Q :=
  match FloatOps.Prim2SF f with
  | SpecFloat.S754_zero _ => Some 0
  | SpecFloat.S754_finite s m e =>
      Some ((if s then -1 else 1) * inject_Z (Z.pos m) * Qpower 2 e)
  | _ => None
  end.

(** A value [Math.random()] can return: the binary64 number nearest
    to 0.2. *)
Definition draw : float := 0.2%float.

End F64.

(** The gap as the code keeps it: [gapBot] is the sum the code computed
    at creation, and [gapTop] keeps the margins. *)
Definition gap_kept (p : Pipe.t) : Prop :=
  Pipe.gapBot p = Pipe.gapTop p + CFG.PIPE_GAP /\
  60 <= Pipe.gapTop p /\
  Pipe.gapTop p <= CFG.GROUND_Y - CFG.PIPE_GAP - 60.

(** A run that has just started or restarted at time [t]: PLAYING, no
    pipes, the first spawn delayed by 800 ms. *)
Definition started (t : Q) (m : machine) : Prop :=
  phase (state m) = PLAYING /\
  pipes (state m) = [] /\
  lastPipeTime (state m) = t + 800.

(** An event of the grace period after time [t]: a frame whose clock
    reading is before [t + 2500], a flap, or a timer task (not before
    [t]). *)
Definition in_grace (t : Q) (e : event) : Prop :=
  match e with
  | AnimationFrame _ now _ _ => now < t + 2500
  | Flap _ => True
  | Timeout now => t <= now
  end.

(** ** Comparisons *)

Lemma Qleb_iff (a b : Q) : (a <=? b) = true <-> a <= b.
Proof. apply Qle_bool_iff. Qed.

Lemma Qltb_iff (a b : Q) : (a <? b) = true <-> a < b.
Proof.
  unfold Qltb. rewrite negb_true_iff.
  split; intros H.
  - apply Qnot_le_lt. intros Hle. apply Qle_bool_iff in Hle. congruence.
  - destruct (Qle_bool b a) eqn:E; [|reflexivity].
    apply Qle_bool_iff in E. exfalso. apply (Qlt_not_le _ _ H E).
Qed.

Lemma Qleb_false_iff (a b : Q) : (a <=? b) = false <-> b < a.
Proof.
  rewrite <- Qltb_iff. unfold Qltb, Qleb.
  destruct (Qle_bool a b); simpl; split; congruence.
Qed.

Lemma Qltb_false_iff (a b : Q) : (a <? b) = false <-> b <= a.
Proof.
  rewrite <- Qleb_iff. unfold Qltb, Qleb.
  destruct (Qle_bool b a); simpl; split; congruence.
Qed.

(** ** The pipe loop *)

Section PipeLoop.

Lemma pipe_body_inc (p : Pipe.t) :
  tick_inc p =
    if negb (Pipe.scored p) && (right_edge p - CFG.PIPE_SPEED <? CFG.BIRD_X)
    then 1%Z else 0%Z.
Proof.
  unfold tick_inc, pipe_body, right_edge. simpl.
  assert (E : (Pipe.x p - CFG.PIPE_SPEED + CFG.PIPE_W <? CFG.BIRD_X)
              = (Pipe.x p + CFG.PIPE_W - CFG.PIPE_SPEED <? CFG.BIRD_X)).
  { apply eq_true_iff_eq. rewrite !Qltb_iff. split; intros; lra. }
  rewrite E.
  destruct (negb (Pipe.scored p) &&
            (Pipe.x p + CFG.PIPE_W - CFG.PIPE_SPEED <? CFG.BIRD_X));
    reflexivity.
Qed.

(** The loop visits the indices from the last one down, so a deletion at
    [i] never shifts a pipe that is still to be visited: after the
    iterations for the prefix [l1], every pipe of [l1] has been ticked
    once and the suffix is untouched. *)
Lemma sumZ_snoc (l : list Z) (z : Z) : sumZ (l ++ [z]) = (sumZ l + z)%Z.
Proof. unfold sumZ. induction l as [|a l IH]; simpl; lia. Qed.

Lemma pipe_loop_app (l1 l2 : list Pipe.t) (sc : Z) :
  pipe_loop (length l1) (l1 ++ l2) sc
  = (omap tick_pipe l1 ++ l2, (sc + sumZ (map tick_inc l1))%Z).
Proof.
  revert l2 sc. induction l1 as [|p l1 IH] using rev_ind; intros l2 sc.
  - simpl. f_equal. unfold sumZ. simpl. lia.
  - rewrite length_app. simpl length. rewrite Nat.add_1_r.
    cbn [pipe_loop]. rewrite <- app_assoc. simpl app.
    rewrite (list_lookup_middle l1 l2 p (length l1) eq_refl).
    rewrite omap_app, map_app.
    change (map tick_inc [p]) with [tick_inc p]. rewrite sumZ_snoc.
    destruct (pipe_body p) as [[p2 inc] off] eqn:E.
    assert (Ht : omap tick_pipe [p] = if off then [] else [p2]).
    { simpl. unfold tick_pipe. rewrite E. destruct off; reflexivity. }
    assert (Hi : tick_inc p = inc) by (unfold tick_inc; rewrite E; reflexivity).
    rewrite Ht, Hi. destruct off.
    + rewrite delete_middle, IH, app_nil_r. f_equal. lia.
    + rewrite insert_app_r_alt by lia.
      rewrite Nat.sub_diag. simpl. rewrite IH, <- app_assoc. simpl.
      f_equal. lia.
Qed.

Lemma pipe_loop_spec (l : list Pipe.t) (sc : Z) :
  pipe_loop (length l) l sc
  = (omap tick_pipe l, (sc + sumZ (map tick_inc l))%Z).
Proof.
  pose proof (pipe_loop_app l [] sc) as H.
  rewrite !app_nil_r in H. exact H.
Qed.

End PipeLoop.

(** ** One tick of [update] *)

Section Update.

Variables dt now rnd : Q.

Lemma update_not_playing (m : machine) :
  phase (state m) <> PLAYING -> update dt now rnd m = m.
Proof.
  intros H. unfold update. destruct (phase (state m)); simpl; congruence.
Qed.

(** A PLAYING tick is the pipe loop followed by the collision test. *)
Lemma update_playing (m : machine) :
  phase (state m) = PLAYING ->
  update dt now rnd m =
    let m1 := after_loop dt now rnd m in
    if checkCollision (bird (state m1)) (pipes (state m1))
    then killBird m1 else m1.
Proof.
  intros H. unfold update, after_loop, spawned. rewrite H. simpl.
  destruct (CFG.PIPE_INTERVAL <=? now - lastPipeTime (state m));
    rewrite pipe_loop_spec; simpl; reflexivity.
Qed.

Lemma killBird_phase (m : machine) : phase (state (killBird m)) = DEAD.
Proof.
  unfold killBird.
  destruct (js_gt (Int (score (state m))) (bestScore (state m))); reflexivity.
Qed.

Lemma killBird_alive (m : machine) :
  Bird.alive (bird (state (killBird m))) = false.
Proof.
  unfold killBird.
  destruct (js_gt (Int (score (state m))) (bestScore (state m))); reflexivity.
Qed.

Lemma killBird_keeps (m : machine) :
  pipes (state (killBird m)) = pipes (state m) /\
  score (state (killBird m)) = score (state m) /\
  Bird.vy (bird (state (killBird m))) = Bird.vy (bird (state m)) /\
  Bird.y (bird (state (killBird m))) = Bird.y (bird (state m)) /\
  timers (killBird m) = timers m.
Proof.
  unfold killBird.
  destruct (js_gt (Int (score (state m))) (bestScore (state m)));
    simpl; auto.
Qed.

Lemma update_pipes (m : machine) :
  phase (state m) = PLAYING ->
  pipes (state (update dt now rnd m))
  = omap tick_pipe (spawned now rnd (state m)).
Proof.
  intros H. rewrite (update_playing m H). cbv zeta.
  destruct (checkCollision _ _); [|reflexivity].
  destruct (killBird_keeps (after_loop dt now rnd m)) as (-> & _).
  reflexivity.
Qed.

Lemma update_score (m : machine) :
  phase (state m) = PLAYING ->
  score (state (update dt now rnd m))
  = (score (state m)
     + sumZ (map tick_inc (spawned now rnd (state m))))%Z.
Proof.
  intros H. rewrite (update_playing m H). cbv zeta.
  destruct (checkCollision _ _); [|reflexivity].
  destruct (killBird_keeps (after_loop dt now rnd m)) as (_ & -> & _).
  reflexivity.
Qed.

Lemma update_vy (m : machine) :
  phase (state m) = PLAYING ->
  Bird.vy (bird (state (update dt now rnd m)))
  = Math_min (Bird.vy (bird (state m)) + CFG.GRAVITY) CFG.MAX_FALL_VEL.
Proof.
  intros H. rewrite (update_playing m H). cbv zeta.
  assert (E : Bird.vy (bird (state (after_loop dt now rnd m)))
              = Math_min (Bird.vy (bird (state m)) + CFG.GRAVITY)
                  CFG.MAX_FALL_VEL).
  { simpl. unfold update_bird.
    destruct (CFG.WING_SPEED <=? _); reflexivity. }
  destruct (checkCollision _ _); [|exact E].
  destruct (killBird_keeps (after_loop dt now rnd m)) as (_ & _ & -> & _).
  exact E.
Qed.

End Update.

(** ** Ground collision (C2) *)

Lemma update_bird_y (dt : Q) (b : Bird.t) :
  Bird.y (update_bird dt b)
  = Bird.y b + Math_min (Bird.vy b + CFG.GRAVITY) CFG.MAX_FALL_VEL.
Proof. unfold update_bird. destruct (CFG.WING_SPEED <=? _); reflexivity. Qed.

Lemma checkCollision_ground (b : Bird.t) (ps : list Pipe.t) :
  CFG.GROUND_Y <= Bird.y b + CFG.BIRD_RADIUS -> checkCollision b ps = true.
Proof.
  intros H. unfold checkCollision. apply Qleb_iff in H. rewrite H. reflexivity.
Qed.

(** C2. In a tick run in phase PLAYING, if the bird's bottom edge after the
    physics statements ([y + vy'] plus [BIRD_RADIUS], with [vy'] the clamped
    velocity) is at or below [GROUND_Y], then at the end of that tick the
    phase is DEAD and the bird's [alive] flag is false. *)
Theorem C2_ground_hit_ends_run_in_same_tick (dt now rnd : Q) (m : machine) :
  phase (state m) = PLAYING ->
  CFG.GROUND_Y <=
    Bird.y (bird (state m))
    + Math_min (Bird.vy (bird (state m)) + CFG.GRAVITY) CFG.MAX_FALL_VEL
    + CFG.BIRD_RADIUS ->
  phase (state (update dt now rnd m)) = DEAD /\
  Bird.alive (bird (state (update dt now rnd m))) = false.
Proof.
  intros Hp Hg. rewrite (update_playing dt now rnd m Hp). cbv zeta.
  rewrite checkCollision_ground.
  - split; [apply killBird_phase | apply killBird_alive].
  - simpl. rewrite update_bird_y. exact Hg.
Qed.

Lemma C2_ground_hit_witness :
  phase (state (update 16 0 0.5 (playing (bird_at 506 0) [] 0 (Int 0)))) = DEAD /\
  Bird.alive (bird (state (update 16 0 0.5 (playing (bird_at 506 0) [] 0 (Int 0)))))
  = false.
Proof.
  apply (C2_ground_hit_ends_run_in_same_tick 16 0 0.5
           (playing (bird_at 506 0) [] 0 (Int 0))).
  - reflexivity.
  - vm_compute. discriminate.
Defined.

(** ** Best score at death (C3) *)

Lemma setItem_neq (ls : Storage) (k v : string) : setItem ls k v <> ls.
Proof.
  intros H. apply (f_equal setItem_calls) in H. simpl in H.
  apply (f_equal length) in H. simpl in H. lia.
Qed.

(** C3. [killBird] leaves the best score equal to the maximum of the
    previous best score and the score at death, and it calls [setItem] on
    the best-score key (with the score at death) if and only if the score
    at death is strictly greater than the previous best.  The first two
    parts use the JavaScript operators, which also cover a [NaN] best
    score; the third spells them out for an integer best score. *)
Theorem C3_best_score_at_death (m : machine) :
  let sc := score (state m) in
  let best := bestScore (state m) in
  let m' := killBird m in
  bestScore (state m') = js_max best (Int sc) /\
  ((exists v, localStorage m' = setItem (localStorage m) "flapster_best" v)
   <-> js_gt (Int sc) best = true) /\
  (forall b : Z, best = Int b ->
     bestScore (state m') = Int (Z.max b sc) /\
     (localStorage m'
        = setItem (localStorage m) "flapster_best" (String_ (Int sc))
      <-> (b < sc)%Z) /\
     (localStorage m' = localStorage m <-> (sc <= b)%Z)).
Proof.
  intros sc best m'. subst m'. unfold killBird. fold sc. fold best.
  destruct best as [|b] eqn:Eb; simpl.
  - split; [reflexivity|]. split.
    + split; [intros [v Hv]; symmetry in Hv; destruct (setItem_neq _ _ _ Hv)
             | discriminate].
    + intros b Hb. discriminate.
  - destruct (b <? sc)%Z eqn:E; simpl.
    + apply Z.ltb_lt in E. split; [f_equal; lia|]. split.
      * split; [reflexivity | intros _; eexists; reflexivity].
      * intros b' Hb'. injection Hb' as <-.
        split; [f_equal; lia|]. split.
        -- split; [intros _; exact E | reflexivity].
        -- split; [intros H; destruct (setItem_neq _ _ _ H) | lia].
    + apply Z.ltb_ge in E. split; [f_equal; lia|]. split.
      * split; [intros [v Hv]; symmetry in Hv; destruct (setItem_neq _ _ _ Hv)
               | discriminate].
      * intros b' Hb'. injection Hb' as <-.
        split; [f_equal; lia|]. split.
        -- split; [intros H; symmetry in H; destruct (setItem_neq _ _ _ H) | lia].
        -- split; [intros _; exact E | reflexivity].
Qed.

Lemma C3_best_score_witness :
  bestScore (state (killBird (playing (bird_at 506 0) [] 7 (Int 4)))) = Int 7 /\
  localStorage (killBird (playing (bird_at 506 0) [] 7 (Int 4)))
  = setItem empty_store "flapster_best" "7".
Proof.
  destruct (C3_best_score_at_death (playing (bird_at 506 0) [] 7 (Int 4)))
    as (_ & _ & H).
  destruct (H 4%Z eq_refl) as (H1 & H2 & _).
  split; [exact H1 | apply H2; reflexivity].
Defined.

(** ** Velocity (C7, C8) *)

Lemma Math_min_le_r (a b : Q) : Math_min a b <= b.
Proof. apply Q.le_min_r. Qed.

Lemma step_vy_bounded (m : machine) (e : event) :
  Bird.vy (bird (state m)) <= CFG.MAX_FALL_VEL ->
  Bird.vy (bird (state (step m e))) <= CFG.MAX_FALL_VEL.
Proof.
  intros H. destruct e as [t | ts t rnd sinv | t]; simpl.
  - unfold handleFlap.
    destruct (phase (state m)) eqn:Ep; simpl; try exact H.
    + vm_compute. discriminate.
    + destruct (Bird.alive (bird (state m))); simpl;
        [vm_compute; discriminate | exact H].
  - unfold loop.
    destruct (phase (state m)) eqn:Ep; cbn [Phase_eqb].
    + rewrite update_not_playing by (simpl; discriminate).
      simpl. destruct (CFG.WING_SPEED <=? _); exact H.
    + rewrite update_vy by (simpl; reflexivity). apply Math_min_le_r.
    + rewrite update_not_playing by (simpl; discriminate).
      exact H.
  - unfold fire_timer. destruct (timers m) as [|[due cb] rest]; [exact H|].
    destruct (due <=? t); [|exact H].
    destruct cb. simpl. vm_compute. discriminate.
Qed.

Lemma run_vy_bounded (es : list event) (m : machine) :
  Bird.vy (bird (state m)) <= CFG.MAX_FALL_VEL ->
  Bird.vy (bird (state (run m es))) <= CFG.MAX_FALL_VEL.
Proof.
  revert m. induction es as [|e es IH]; intros m H; simpl; [exact H|].
  apply IH, step_vy_bounded, H.
Qed.

(** C7. After every tick run in phase PLAYING the bird's vertical velocity
    is at most [MAX_FALL_VEL] (12); a flap in phase PLAYING does not take
    it above that bound either; and so the bound holds in every state the
    program reaches from boot, whatever the events. *)
Theorem C7_velocity_at_most_max_fall :
  CFG.MAX_FALL_VEL = 12 /\
  (forall (dt now rnd : Q) (m : machine),
     phase (state m) = PLAYING ->
     Bird.vy (bird (state (update dt now rnd m))) <= CFG.MAX_FALL_VEL) /\
  (forall (now : Q) (m : machine),
     phase (state m) = PLAYING ->
     Bird.vy (bird (state m)) <= CFG.MAX_FALL_VEL ->
     Bird.vy (bird (state (handleFlap now m))) <= CFG.MAX_FALL_VEL) /\
  (forall (ls : Storage) (now now' : Q) (es : list event),
     Bird.vy (bird (state (run (boot ls now now') es))) <= CFG.MAX_FALL_VEL).
Proof.
  split; [reflexivity|]. split; [|split].
  - intros dt now rnd m Hp. rewrite update_vy by exact Hp.
    apply Math_min_le_r.
  - intros now m _ H. apply (step_vy_bounded m (Flap now) H).
  - intros ls now now' es. apply run_vy_bounded. vm_compute. discriminate.
Qed.

Lemma C7_velocity_witness :
  Bird.vy (bird (state (update 16 0 0.5
                          (playing (bird_at 260 11.9) [] 0 (Int 0)))))
  <= CFG.MAX_FALL_VEL.
Proof.
  destruct C7_velocity_at_most_max_fall as (_ & H & _).
  apply (H 16 0 0.5 (playing (bird_at 260 11.9) [] 0 (Int 0))).
  reflexivity.
Defined.

(** C8. Whatever the bird's velocity was, a flap handled in phase PLAYING
    with the bird alive sets the vertical velocity to [JUMP_VEL] (-8.5) and
    the tilt angle to [TILT_UP] (-25). *)
Theorem C8_flap_sets_jump_velocity (now : Q) (m : machine) :
  phase (state m) = PLAYING ->
  Bird.alive (bird (state m)) = true ->
  Bird.vy (bird (state (handleFlap now m))) = CFG.JUMP_VEL /\
  Bird.angle (bird (state (handleFlap now m))) = CFG.TILT_UP /\
  CFG.JUMP_VEL = -8.5 /\ CFG.TILT_UP = -25.
Proof.
  intros Hp Ha. unfold handleFlap. rewrite Hp, Ha. simpl.
  repeat split; reflexivity.
Qed.

Lemma C8_flap_witness :
  Bird.vy (bird (state (handleFlap 5 (playing (bird_at 300 11.9) [] 0 (Int 0)))))
  = CFG.JUMP_VEL.
Proof.
  apply (C8_flap_sets_jump_velocity 5 (playing (bird_at 300 11.9) [] 0 (Int 0)));
    reflexivity.
Defined.

(** ** Scoring and retiring of a pipe (C1, C10) *)

Section PipeLifetime.

(** The loop body in closed form. *)
Lemma pipe_body_eq (p : Pipe.t) :
  let x' := Pipe.x p - CFG.PIPE_SPEED in
  let passed := x' + CFG.PIPE_W <? CFG.BIRD_X in
  pipe_body p =
    (Pipe.mk x' (Pipe.gapTop p) (Pipe.gapBot p) (Pipe.scored p || passed),
     if negb (Pipe.scored p) && passed then 1%Z else 0%Z,
     x' + CFG.PIPE_W <? -20).
Proof.
  intros x' passed. unfold pipe_body. simpl. fold x'. fold passed.
  destruct (Pipe.scored p), passed; reflexivity.
Qed.

(** Each tick moves a pipe left by [PIPE_SPEED]. *)
Lemma x_after_closed_form (k : nat) (x : Q) :
  x_after k x == x - inject_Z (Z.of_nat k) * CFG.PIPE_SPEED.
Proof.
  induction k as [|k IH].
  - unfold x_after. simpl. ring.
  - unfold x_after in *. rewrite Nat.iter_succ, IH.
    rewrite Nat2Z.inj_succ. unfold Z.succ. rewrite inject_Z_plus. ring.
Qed.

Lemma passed_in_closed_form (k : nat) (p : Pipe.t) :
  passed_in k p <->
  right_edge p - inject_Z (Z.of_nat (S k)) * CFG.PIPE_SPEED < CFG.BIRD_X.
Proof.
  unfold passed_in, right_edge. rewrite x_after_closed_form.
  split; intros H; lra.
Qed.

Lemma passed_in_0 (p : Pipe.t) :
  passed_in 0 p <->
  (Pipe.x p - CFG.PIPE_SPEED + CFG.PIPE_W <? CFG.BIRD_X) = true.
Proof. unfold passed_in, x_after. simpl. symmetry. apply Qltb_iff. Qed.

Lemma passed_in_S (k : nat) (p q : Pipe.t) :
  Pipe.x q = Pipe.x p - CFG.PIPE_SPEED ->
  passed_in (S k) p <-> passed_in k q.
Proof.
  intros Hx. unfold passed_in, x_after. rewrite Hx.
  rewrite (Nat.iter_succ_r (S k)). reflexivity.
Qed.

(** The off-screen threshold lies left of the scoring threshold. *)
Lemma off_screen_passed (e : Q) :
  (e <? -20) = true -> (e <? CFG.BIRD_X) = true.
Proof.
  rewrite !Qltb_iff. unfold CFG.BIRD_X. intros H. lra.
Qed.

Lemma scored_trace_zero (n : nat) (p : Pipe.t) :
  Pipe.scored p = true -> Forall (fun z => z = 0%Z) (score_trace n p).
Proof.
  revert p. induction n as [|n IH]; intros p Hs; simpl; [constructor|].
  pose proof (pipe_body_eq p) as E. cbv zeta in E. rewrite E, Hs. simpl.
  constructor; [reflexivity|].
  destruct (_ <? -20); [constructor | apply IH; reflexivity].
Qed.

Lemma zeros_sum (l : list Z) : Forall (fun z => z = 0%Z) l -> sumZ l = 0%Z.
Proof. induction 1 as [|z l Hz _ IH]; unfold sumZ in *; simpl; lia. Qed.

Lemma zeros_no_one (l : list Z) (k : nat) :
  Forall (fun z => z = 0%Z) l -> l !! k <> Some 1%Z.
Proof.
  intros H Hk. rewrite Forall_forall in H.
  apply list_elem_of_lookup_2, H in Hk. discriminate.
Qed.

(** One tick of an unscored pipe whose right edge is now left of the
    bird: the score gets 1 and the pipe is flagged. *)
Lemma trace_passing (n : nat) (p : Pipe.t) :
  Pipe.scored p = false -> passed_in 0 p ->
  exists rest, score_trace (S n) p = 1%Z :: rest /\
               Forall (fun z => z = 0%Z) rest.
Proof.
  intros Hs Hp. apply passed_in_0 in Hp. simpl.
  pose proof (pipe_body_eq p) as E. cbv zeta in E. rewrite E, Hs, Hp. simpl.
  eexists. split; [reflexivity|].
  destruct (_ <? -20); [constructor | apply scored_trace_zero; reflexivity].
Qed.

(** One tick of an unscored pipe that has not passed the bird: nothing
    is added, the pipe stays in the list, unscored. *)
Lemma trace_waiting (n : nat) (p : Pipe.t) :
  Pipe.scored p = false -> ~ passed_in 0 p ->
  exists q, score_trace (S n) p = 0%Z :: score_trace n q /\
            Pipe.scored q = false /\
            Pipe.x q = Pipe.x p - CFG.PIPE_SPEED.
Proof.
  intros Hs Hp. rewrite passed_in_0 in Hp.
  destruct (Pipe.x p - CFG.PIPE_SPEED + CFG.PIPE_W <? CFG.BIRD_X) eqn:Eb;
    [congruence|].
  destruct (Pipe.x p - CFG.PIPE_SPEED + CFG.PIPE_W <? -20) eqn:Eo.
  { apply off_screen_passed in Eo. congruence. }
  simpl. pose proof (pipe_body_eq p) as E. cbv zeta in E.
  rewrite E, Hs, Eb, Eo. simpl.
  eexists. split; [reflexivity|]. split; reflexivity.
Qed.

Lemma passed_in_dec (k : nat) (p : Pipe.t) :
  passed_in k p \/ ~ passed_in k p.
Proof.
  unfold passed_in.
  destruct (Qlt_le_dec (x_after (S k) (Pipe.x p) + CFG.PIPE_W) CFG.BIRD_X)
    as [H|H]; [left; exact H | right; apply Qle_not_lt, H].
Qed.

(** The increment lands in the first tick in which the pipe has passed,
    and in no other. *)
Lemma trace_first_pass (n k : nat) (p : Pipe.t) :
  Pipe.scored p = false ->
  score_trace n p !! k = Some 1%Z <->
  (k < n)%nat /\ passed_in k p /\
  forall j : nat, (j < k)%nat -> ~ passed_in j p.
Proof.
  revert k p. induction n as [|n IH]; intros k p Hs.
  - simpl. split; [discriminate | intros (H & _); lia].
  - destruct (passed_in_dec 0 p) as [Hp|Hp].
    + destruct (trace_passing n p Hs Hp) as (rest & -> & Hz).
      destruct k as [|k]; simpl.
      * split; [intros _|reflexivity].
        split; [lia|]. split; [exact Hp | intros j Hj; lia].
      * split.
        -- intros H. destruct (zeros_no_one rest k Hz H).
        -- intros (_ & _ & H). destruct (H 0%nat ltac:(lia) Hp).
    + destruct (trace_waiting n p Hs Hp) as (q & -> & Hq & Hx).
      destruct k as [|k]; simpl.
      * split; [discriminate | intros (_ & H & _); destruct (Hp H)].
      * rewrite (IH k q Hq). rewrite (passed_in_S k p q Hx).
        split.
        -- intros (H1 & H2 & H3). split; [lia|]. split; [exact H2|].
           intros [|j] Hj; [exact Hp|].
           rewrite (passed_in_S j p q Hx). apply H3. lia.
        -- intros (H1 & H2 & H3). split; [lia|]. split; [exact H2|].
           intros j Hj. rewrite <- (passed_in_S j p q Hx). apply H3. lia.
Qed.

(** Over its lifetime a pipe adds 1 to the score if it passes the bird
    within the ticks run, and 0 otherwise. *)
Lemma trace_total (n : nat) (p : Pipe.t) :
  Pipe.scored p = false ->
  (sumZ (score_trace n p) = 1%Z /\ exists k : nat, (k < n)%nat /\ passed_in k p)
  \/ (sumZ (score_trace n p) = 0%Z /\
      forall k : nat, (k < n)%nat -> ~ passed_in k p).
Proof.
  revert p. induction n as [|n IH]; intros p Hs.
  - right. split; [reflexivity | intros k Hk; lia].
  - destruct (passed_in_dec 0 p) as [Hp|Hp].
    + left. destruct (trace_passing n p Hs Hp) as (rest & -> & Hz).
      split.
      * pose proof (zeros_sum rest Hz) as H0.
        unfold sumZ in *. simpl. lia.
      * exists 0%nat. split; [lia | exact Hp].
    + destruct (trace_waiting n p Hs Hp) as (q & -> & Hq & Hx).
      destruct (IH q Hq) as [(H1 & k & Hk & Hpk) | (H0 & Hn)].
      * left. split; [unfold sumZ in *; simpl; lia|].
        exists (S k). split; [lia|].
        rewrite (passed_in_S k p q Hx). exact Hpk.
      * right. split; [unfold sumZ in *; simpl; lia|].
        intros [|k] Hk; [exact Hp|].
        rewrite (passed_in_S k p q Hx). apply Hn. lia.
Qed.

End PipeLifetime.

(** C1. A PLAYING tick adds to the score the increments of the pipes in the
    list, and passes each remaining pipe on to the next tick as the loop
    body left it.  The increment of a pipe in a tick is 1 when the pipe is
    not yet flagged and its right edge, after the move, is strictly left of
    [BIRD_X], and 0 otherwise.  Followed over its lifetime, an unflagged
    pipe receives its increment in the first tick in which its right edge is
    strictly left of [BIRD_X] and in no other tick, so it adds exactly 1 if
    it passes the bird and 0 if it does not; a flagged pipe adds nothing.
    (In tick number [k], counted from 0, the right edge is the initial one
    less [k + 1] times [PIPE_SPEED].) *)
Theorem C1_score_once_per_pipe :
  (forall (dt now rnd : Q) (m : machine),
     phase (state m) = PLAYING ->
     score (state (update dt now rnd m))
     = (score (state m) + sumZ (map tick_inc (spawned now rnd (state m))))%Z /\
     pipes (state (update dt now rnd m))
     = omap tick_pipe (spawned now rnd (state m))) /\
  (forall p : Pipe.t,
     tick_inc p =
       if negb (Pipe.scored p) && (right_edge p - CFG.PIPE_SPEED <? CFG.BIRD_X)
       then 1%Z else 0%Z) /\
  (forall (k : nat) (p : Pipe.t),
     passed_in k p <->
     right_edge p - inject_Z (Z.of_nat (S k)) * CFG.PIPE_SPEED < CFG.BIRD_X) /\
  (forall (n k : nat) (p : Pipe.t),
     Pipe.scored p = false ->
     score_trace n p !! k = Some 1%Z <->
     (k < n)%nat /\ passed_in k p /\
     forall j : nat, (j < k)%nat -> ~ passed_in j p) /\
  (forall (n : nat) (p : Pipe.t),
     Pipe.scored p = false ->
     (sumZ (score_trace n p) = 1%Z /\
      exists k : nat, (k < n)%nat /\ passed_in k p)
     \/ (sumZ (score_trace n p) = 0%Z /\
         forall k : nat, (k < n)%nat -> ~ passed_in k p)) /\
  (forall (n : nat) (p : Pipe.t),
     Pipe.scored p = true -> Forall (fun z => z = 0%Z) (score_trace n p)).
Proof.
  split; [|split; [|split; [|split; [|split]]]].
  - intros dt now rnd m Hp. split; [apply update_score | apply update_pipes];
      exact Hp.
  - apply pipe_body_inc.
  - apply passed_in_closed_form.
  - apply trace_first_pass.
  - apply trace_total.
  - apply scored_trace_zero.
Qed.

Lemma C1_score_once_witness :
  score_trace 3 (Pipe.mk 35 100 248 false) !! 1%nat = Some 1%Z /\
  sumZ (score_trace 3 (Pipe.mk 35 100 248 false)) = 1%Z /\
  score (state (update 16 0 0.5
                  (playing (bird_at 260 0) [Pipe.mk 33 100 248 false] 4 (Int 0))))
  = 5%Z.
Proof.
  destruct C1_score_once_per_pipe as (Hupd & _ & _ & Hfirst & Htotal & _).
  split; [|split].
  - apply (Hfirst 3%nat 1%nat (Pipe.mk 35 100 248 false) eq_refl).
    split; [lia|]. split; [vm_compute; reflexivity|].
    intros j Hj. assert (j = 0%nat) as -> by lia.
    vm_compute. discriminate.
  - destruct (Htotal 3%nat (Pipe.mk 35 100 248 false) eq_refl)
      as [(H & _) | (_ & H)]; [exact H|].
    exfalso. apply (H 1%nat); [lia | vm_compute; reflexivity].
  - destruct (Hupd 16 0 0.5
                (playing (bird_at 260 0) [Pipe.mk 33 100 248 false] 4 (Int 0))
                eq_refl) as (-> & _).
    reflexivity.
Defined.

(** C10. The pipes a PLAYING tick removes from the list are those for which
    the loop body asks for [splice], that is those whose right edge, after
    the move, is strictly left of -20.  Each of them has its [scored] flag
    set when it is removed: it was flagged in an earlier tick, or the same
    pass of the loop body has just flagged it and added its 1 to the
    score. *)
Theorem C10_removed_pipes_are_scored :
  (forall (dt now rnd : Q) (m : machine),
     phase (state m) = PLAYING ->
     pipes (state (update dt now rnd m))
     = omap tick_pipe (spawned now rnd (state m))) /\
  (forall p : Pipe.t,
     tick_pipe p = None <-> right_edge p - CFG.PIPE_SPEED < -20) /\
  (forall p : Pipe.t,
     tick_pipe p = None ->
     Pipe.scored (fst (fst (pipe_body p))) = true /\
     (Pipe.scored p = true \/ tick_inc p = 1%Z)).
Proof.
  split; [|split].
  - intros dt now rnd m Hp. apply update_pipes, Hp.
  - intros p. unfold tick_pipe.
    pose proof (pipe_body_eq p) as E. cbv zeta in E. rewrite E.
    destruct (Pipe.x p - CFG.PIPE_SPEED + CFG.PIPE_W <? -20) eqn:Eo.
    + apply Qltb_iff in Eo. unfold right_edge.
      split; [intros _; lra | reflexivity].
    + apply Qltb_false_iff in Eo. unfold right_edge.
      split; [discriminate | intros H; lra].
  - intros p. unfold tick_pipe, tick_inc.
    pose proof (pipe_body_eq p) as E. cbv zeta in E. rewrite E.
    destruct (Pipe.x p - CFG.PIPE_SPEED + CFG.PIPE_W <? -20) eqn:Eo;
      [|discriminate].
    intros _. apply off_screen_passed in Eo. rewrite Eo. simpl.
    destruct (Pipe.scored p); simpl; auto.
Qed.

Lemma C10_removed_pipes_witness :
  Pipe.scored (fst (fst (pipe_body (Pipe.mk (-76) 100 248 false)))) = true /\
  (Pipe.scored (Pipe.mk (-76) 100 248 false) = true \/
   tick_inc (Pipe.mk (-76) 100 248 false) = 1%Z).
Proof.
  destruct C10_removed_pipes_are_scored as (_ & _ & H).
  apply (H (Pipe.mk (-76) 100 248 false)). reflexivity.
Defined.

(** ** The gap of a pipe (C9) *)

Section Gap.

Lemma createPipe_gap_kept (rnd : Q) :
  0 <= rnd -> rnd < 1 -> gap_kept (createPipe rnd).
Proof.
  intros H0 H1. unfold gap_kept, createPipe. simpl.
  unfold CFG.GROUND_Y, CFG.PIPE_GAP. split; [reflexivity|]. split; lra.
Qed.

Lemma pipe_body_gap (p : Pipe.t) :
  Pipe.gapTop (fst (fst (pipe_body p))) = Pipe.gapTop p /\
  Pipe.gapBot (fst (fst (pipe_body p))) = Pipe.gapBot p.
Proof.
  pose proof (pipe_body_eq p) as E. cbv zeta in E. rewrite E.
  split; reflexivity.
Qed.

Lemma tick_pipe_gap (p q : Pipe.t) :
  tick_pipe p = Some q ->
  Pipe.gapTop q = Pipe.gapTop p /\ Pipe.gapBot q = Pipe.gapBot p.
Proof.
  unfold tick_pipe. pose proof (pipe_body_gap p) as H.
  destruct (pipe_body p) as [[p2 inc] off]. simpl in H.
  destruct off; [discriminate|]. intros [= <-]. exact H.
Qed.

Lemma tick_pipes_gap_kept (l : list Pipe.t) :
  Forall gap_kept l -> Forall gap_kept (omap tick_pipe l).
Proof.
  induction 1 as [|p l Hp _ IH]; simpl; [constructor|].
  destruct (tick_pipe p) as [q|] eqn:E; [|exact IH].
  constructor; [|exact IH].
  destruct (tick_pipe_gap p q E) as (Ht & Hb).
  unfold gap_kept in *. rewrite Ht, Hb. exact Hp.
Qed.

Lemma spawned_gap_kept (now rnd : Q) (s : State) :
  0 <= rnd -> rnd < 1 ->
  Forall gap_kept (pipes s) -> Forall gap_kept (spawned now rnd s).
Proof.
  intros H0 H1 H. unfold spawned.
  destruct (CFG.PIPE_INTERVAL <=? _); [|exact H].
  apply Forall_app. split; [exact H|].
  constructor; [apply createPipe_gap_kept; assumption | constructor].
Qed.

Lemma update_gap_kept (dt now rnd : Q) (m : machine) :
  0 <= rnd -> rnd < 1 ->
  Forall gap_kept (pipes (state m)) ->
  Forall gap_kept (pipes (state (update dt now rnd m))).
Proof.
  intros H0 H1 H.
  destruct (phase (state m)) eqn:Ep;
    try (rewrite update_not_playing by congruence; exact H).
  rewrite update_pipes by exact Ep.
  apply tick_pipes_gap_kept, spawned_gap_kept; assumption.
Qed.

Lemma step_gap_kept (m : machine) (e : event) :
  event_ok e ->
  Forall gap_kept (pipes (state m)) ->
  Forall gap_kept (pipes (state (step m e))).
Proof.
  intros He H. destruct e as [t | ts t rnd sinv | t]; simpl.
  - unfold handleFlap.
    destruct (phase (state m)); simpl; try exact H.
    destruct (Bird.alive (bird (state m))); exact H.
  - destruct He as (H0 & H1). unfold loop.
    apply update_gap_kept; try assumption.
    destruct (Phase_eqb (phase (state m)) START); exact H.
  - unfold fire_timer. destruct (timers m) as [|[due cb] rest]; [exact H|].
    destruct (due <=? t); [|exact H].
    destruct cb. simpl. constructor.
Qed.

Lemma run_gap_kept (es : list event) (m : machine) :
  Forall event_ok es ->
  Forall gap_kept (pipes (state m)) ->
  Forall gap_kept (pipes (state (run m es))).
Proof.
  revert m. induction es as [|e es IH]; intros m Hes H; simpl; [exact H|].
  inversion Hes as [|? ? He Hes']; subst.
  apply IH; [exact Hes' | apply step_gap_kept; assumption].
Qed.

Lemma F64_pipe_body_gap (p : F64.pipe) :
  F64.gapTop (fst (fst (F64.pipe_body p))) = F64.gapTop p /\
  F64.gapBot (fst (fst (F64.pipe_body p))) = F64.gapBot p.
Proof.
  unfold F64.pipe_body. cbv zeta. simpl.
  destruct (negb (F64.scored p) && _); simpl; split; reflexivity.
Qed.

End Gap.

(** C9, as stated, fails on the numbers the program computes with.  For
    the draw 0.2 of [Math.random()], [createPipe] in binary64 gives a
    [gapTop] near 110.4 and a [gapBot] near 258.4 whose difference is not
    148: neither as the program would subtract them, nor exactly (the two
    stored values are less than 148 apart). *)
Lemma C9_gap_differs_from_148_in_binary64 :
  PrimFloat.leb F64.zero F64.draw = true /\
  PrimFloat.ltb F64.draw F64.one = true /\
  PrimFloat.eqb
    (PrimFloat.sub (F64.gapBot (F64.createPipe F64.draw))
                   (F64.gapTop (F64.createPipe F64.draw))) F64.PIPE_GAP
  = false /\
  exists top bot gap : Q,
    F64.exact (F64.gapTop (F64.createPipe F64.draw)) = Some top /\
    F64.exact (F64.gapBot (F64.createPipe F64.draw)) = Some bot /\
    F64.exact F64.PIPE_GAP = Some gap /\
    gap == 148 /\ bot - top < 148.
Proof.
  split; [vm_compute; reflexivity|]. split; [vm_compute; reflexivity|].
  split; [vm_compute; reflexivity|].
  eexists. eexists. eexists. split; [vm_compute; reflexivity|].
  split; [vm_compute; reflexivity|]. split; [vm_compute; reflexivity|].
  split; vm_compute; reflexivity.
Qed.

(** C9, amended.  A pipe made by [createPipe] has [gapBot] equal to the sum
    [gapTop + PIPE_GAP] as the code computes it at creation ([PIPE_GAP] is
    148), in the exact model and in binary64, and, the random draw being
    in the half-open interval from 0 to 1, [gapTop] lies between 60 and
    [GROUND_Y - PIPE_GAP - 60].  The loop body of a tick changes neither
    [gapTop] nor [gapBot] (in the exact model and in binary64), and every
    pipe in the list after a tick is the loop body's image of a pipe that
    was in the list, or spawned, before it.  So in every state reached from
    boot every pipe still has the [gapTop] and the [gapBot] it was made
    with, and the gap keeps 60 pixels clear of the ceiling and of the
    ground. *)
Theorem C9_gap_is_kept :
  CFG.PIPE_GAP = 148 /\
  (forall rnd : Q,
     Pipe.gapBot (createPipe rnd) = Pipe.gapTop (createPipe rnd) + CFG.PIPE_GAP) /\
  (forall rnd : Q,
     0 <= rnd -> rnd < 1 ->
     60 <= Pipe.gapTop (createPipe rnd) /\
     Pipe.gapTop (createPipe rnd) <= CFG.GROUND_Y - CFG.PIPE_GAP - 60) /\
  (forall p : Pipe.t,
     Pipe.gapTop (fst (fst (pipe_body p))) = Pipe.gapTop p /\
     Pipe.gapBot (fst (fst (pipe_body p))) = Pipe.gapBot p) /\
  (forall (dt now rnd : Q) (m : machine) (q : Pipe.t),
     phase (state m) = PLAYING ->
     q ∈ pipes (state (update dt now rnd m)) ->
     exists p : Pipe.t,
       p ∈ pipes (state m) ++ [createPipe rnd] /\
       q = fst (fst (pipe_body p)) /\
       Pipe.gapTop q = Pipe.gapTop p /\ Pipe.gapBot q = Pipe.gapBot p) /\
  (forall (ls : Storage) (now now' : Q) (es : list event),
     Forall event_ok es ->
     Forall gap_kept (pipes (state (run (boot ls now now') es)))) /\
  (forall p : Pipe.t,
     gap_kept p -> 60 <= Pipe.gapTop p /\ Pipe.gapBot p <= CFG.GROUND_Y - 60) /\
  (forall rnd : PrimFloat.float,
     F64.gapBot (F64.createPipe rnd)
     = PrimFloat.add (F64.gapTop (F64.createPipe rnd)) F64.PIPE_GAP) /\
  (forall p : F64.pipe,
     F64.gapTop (fst (fst (F64.pipe_body p))) = F64.gapTop p /\
     F64.gapBot (fst (fst (F64.pipe_body p))) = F64.gapBot p).
Proof.
  split; [reflexivity|]. split; [reflexivity|].
  split; [intros rnd H0 H1; apply (createPipe_gap_kept rnd H0 H1)|].
  split; [exact pipe_body_gap|].
  split; [|split; [|split; [|split]]].
  - intros dt now rnd m q Hp Hq. rewrite update_pipes in Hq by exact Hp.
    apply list_elem_of_omap in Hq. destruct Hq as (p & Hin & Ht).
    exists p. split.
    + unfold spawned in Hin.
      destruct (CFG.PIPE_INTERVAL <=? _); [exact Hin|].
      apply elem_of_app. left. exact Hin.
    + split; [|apply tick_pipe_gap; exact Ht].
      unfold tick_pipe in Ht. destruct (pipe_body p) as [[p2 inc] off].
      destruct off; [discriminate|]. injection Ht as <-. reflexivity.
  - intros ls now now' es Hes. apply run_gap_kept; [exact Hes|].
    simpl. constructor.
  - intros p (Hg & Hlo & Hhi). rewrite Hg.
    unfold CFG.GROUND_Y, CFG.PIPE_GAP in *. split; lra.
  - intros rnd. reflexivity.
  - exact F64_pipe_body_gap.
Qed.

Lemma C9_gap_is_kept_witness :
  (60 <= Pipe.gapTop (createPipe 0.2) /\
   Pipe.gapTop (createPipe 0.2) <= CFG.GROUND_Y - CFG.PIPE_GAP - 60) /\
  Forall gap_kept
    (pipes (state (run (boot empty_store 0 0)
                     [Flap 10; AnimationFrame 1000 1000 0.5 0;
                      AnimationFrame 1016 1016 0.25 0]))).
Proof.
  destruct C9_gap_is_kept as (_ & _ & Hc & _ & _ & Hr & _).
  split.
  - apply (Hc 0.2); vm_compute; [discriminate | reflexivity].
  - apply (Hr empty_store 0 0). repeat constructor; vm_compute; discriminate.
Defined.

(** ** The collision predicate (C6) *)

Section Collision.

(** [Math.max(lo, Math.min(v, hi))] clamps [v] to a non-empty range. *)
Lemma clamp_spec (lo hi v : Q) :
  lo <= hi -> Math_max lo (Math_min v hi) == clamp lo hi v.
Proof.
  intros Hle. unfold Math_max, Math_min, clamp.
  destruct (Q.min_spec v hi) as [(H1 & E1) | (H1 & E1)];
    destruct (Q.max_spec lo (Qmin v hi)) as [(H2 & E2) | (H2 & E2)];
    rewrite E1 in H2; rewrite E2; clear E2; try rewrite E1; clear E1;
    destruct (v <? lo) eqn:Ea; destruct (hi <? v) eqn:Eb;
    try apply Qltb_iff in Ea; try apply Qltb_iff in Eb;
    try apply Qltb_false_iff in Ea; try apply Qltb_false_iff in Eb;
    lra.
Qed.

Lemma clamp_between (lo hi v : Q) :
  lo <= hi -> lo <= clamp lo hi v /\ clamp lo hi v <= hi.
Proof.
  intros Hle. unfold clamp.
  destruct (v <? lo) eqn:Ea; [lra|].
  destruct (hi <? v) eqn:Eb; [lra|].
  apply Qltb_false_iff in Ea. apply Qltb_false_iff in Eb. lra.
Qed.

Lemma square_nonneg (a : Q) : 0 <= a * a.
Proof.
  destruct (Qlt_le_dec a 0) as [H|H].
  - assert (E : a * a == (- a) * (- a)) by ring.
    rewrite E. apply Qmult_le_0_compat; lra.
  - apply Qmult_le_0_compat; exact H.
Qed.

Lemma clamp_closest (lo hi v q : Q) :
  lo <= q -> q <= hi ->
  (v - clamp lo hi v) * (v - clamp lo hi v) <= (v - q) * (v - q).
Proof.
  intros Hlo Hhi. unfold clamp.
  destruct (v <? lo) eqn:Ea.
  { apply Qltb_iff in Ea. nra. }
  destruct (hi <? v) eqn:Eb.
  { apply Qltb_iff in Eb. nra. }
  assert (E : (v - v) * (v - v) == 0) by ring.
  rewrite E. apply square_nonneg.
Qed.

(** The clamped point is a point of the rectangle, and no point of the
    rectangle is closer to the centre. *)
Lemma closest_point_is_closest (r : rect) (cx cy qx qy : Q) :
  x0 r <= x1 r -> y0 r <= y1 r ->
  in_rect r (closest_x r cx) (closest_y r cy) /\
  (in_rect r qx qy ->
   sqdist cx cy (closest_x r cx) (closest_y r cy) <= sqdist cx cy qx qy).
Proof.
  intros Hx Hy. unfold in_rect, closest_x, closest_y, sqdist. split.
  - pose proof (clamp_between (x0 r) (x1 r) cx Hx).
    pose proof (clamp_between (y0 r) (y1 r) cy Hy). tauto.
  - intros (A & B & C & D).
    pose proof (clamp_closest (x0 r) (x1 r) cx qx A B).
    pose proof (clamp_closest (y0 r) (y1 r) cy qy C D). lra.
Qed.

Lemma pipe_collision_iff (bx by_ br : Q) (p : Pipe.t) :
  0 <= Pipe.gapTop p -> Pipe.gapBot p <= CFG.GROUND_Y ->
  pipe_collision bx by_ br p = true <->
  circle_hits bx by_ br (top_rect p) \/ circle_hits bx by_ br (bottom_rect p).
Proof.
  intros Ht Hb.
  assert (Hw : Pipe.x p <= Pipe.x p + CFG.PIPE_W)
    by (unfold CFG.PIPE_W; lra).
  unfold circle_hits, sqdist, closest_x, closest_y, top_rect, bottom_rect.
  cbn [x0 x1 y0 y1].
  rewrite <- (clamp_spec _ _ bx Hw), <- (clamp_spec _ _ by_ Ht),
    <- (clamp_spec _ _ by_ Hb).
  rewrite <- !Qltb_iff. unfold pipe_collision. cbv zeta.
  destruct (_ <? br * br); [tauto|].
  destruct (_ <? br * br); [tauto|].
  split; [discriminate | intros [H|H]; discriminate].
Qed.

Lemma pipes_collision_iff (bx by_ br : Q) (ps : list Pipe.t) :
  pipes_collision bx by_ br ps = true <->
  Exists (fun p => pipe_collision bx by_ br p = true) ps.
Proof.
  induction ps as [|p ps IH]; simpl.
  - split; [discriminate | intros H; inversion H].
  - rewrite Exists_cons, <- IH.
    destruct (pipe_collision bx by_ br p); [tauto|].
    split; [tauto | intros [H|H]; [discriminate | exact H]].
Qed.

Lemma checkCollision_iff (b : Bird.t) (ps : list Pipe.t) :
  checkCollision b ps = true <->
  CFG.GROUND_Y <= Bird.y b + CFG.BIRD_RADIUS \/
  Bird.y b - CFG.BIRD_RADIUS <= 0 \/
  Exists (fun p => pipe_collision (Bird.x b) (Bird.y b) CFG.BIRD_RADIUS p
                   = true) ps.
Proof.
  rewrite <- pipes_collision_iff, <- !Qleb_iff. unfold checkCollision.
  destruct (CFG.GROUND_Y <=? _); [tauto|].
  destruct (_ <=? 0); [tauto|].
  split; [tauto | intros [H|[H|H]]; [discriminate | discriminate | exact H]].
Qed.

End Collision.

(** C6. With radius 14, ground at 520 and no pipes, a bird centred at
    (90, 500) does not collide and a bird centred at (90, 506) does: the
    ground test is [y + BIRD_RADIUS >= GROUND_Y] and the ceiling test is
    [y - BIRD_RADIUS <= 0], both inclusive.  [checkCollision] is true
    exactly when one of these two tests holds or some pipe is hit, and a
    pipe (with its gap between the ceiling and the ground) is hit exactly
    when, for its top or for its bottom rectangle, the squared distance
    from the bird's centre to the closest point of the rectangle is
    strictly less than the squared radius.  The point the code computes is
    the closest point: it lies in the rectangle and no point of the
    rectangle is nearer.  Every pipe made by [createPipe] has its gap
    between the ceiling and the ground. *)
Theorem C6_collision_boundaries :
  (CFG.BIRD_RADIUS = 14 /\ CFG.GROUND_Y = 520 /\ CFG.BIRD_X = 90) /\
  checkCollision (bird_at 500 0) [] = false /\
  checkCollision (bird_at 506 0) [] = true /\
  (forall (b : Bird.t) (ps : list Pipe.t),
     checkCollision b ps = true <->
     CFG.GROUND_Y <= Bird.y b + CFG.BIRD_RADIUS \/
     Bird.y b - CFG.BIRD_RADIUS <= 0 \/
     Exists (fun p => pipe_collision (Bird.x b) (Bird.y b) CFG.BIRD_RADIUS p
                      = true) ps) /\
  (forall (bx by_ br : Q) (p : Pipe.t),
     0 <= Pipe.gapTop p -> Pipe.gapBot p <= CFG.GROUND_Y ->
     pipe_collision bx by_ br p = true <->
     circle_hits bx by_ br (top_rect p) \/
     circle_hits bx by_ br (bottom_rect p)) /\
  (forall (r : rect) (cx cy qx qy : Q),
     x0 r <= x1 r -> y0 r <= y1 r ->
     in_rect r (closest_x r cx) (closest_y r cy) /\
     (in_rect r qx qy ->
      sqdist cx cy (closest_x r cx) (closest_y r cy) <= sqdist cx cy qx qy)) /\
  (forall p : Pipe.t,
     gap_ok p -> 0 <= Pipe.gapTop p /\ Pipe.gapBot p <= CFG.GROUND_Y).
Proof.
  split; [repeat split; reflexivity|].
  split; [reflexivity|]. split; [reflexivity|].
  split; [exact checkCollision_iff|].
  split; [exact pipe_collision_iff|].
  split; [exact closest_point_is_closest|].
  intros p (Hg & Hlo & Hhi). unfold CFG.GROUND_Y, CFG.PIPE_GAP in *.
  split; lra.
Qed.

Lemma C6_collision_witness :
  pipe_collision 90 190 14 (Pipe.mk 80 200 348 false) = true /\
  pipe_collision 90 214 14 (Pipe.mk 80 200 348 false) = false.
Proof.
  destruct C6_collision_boundaries as (_ & _ & _ & _ & H & _).
  split.
  - apply (H 90 190 14 (Pipe.mk 80 200 348 false)).
    + vm_compute. discriminate.
    + vm_compute. discriminate.
    + left. vm_compute. reflexivity.
  - destruct (pipe_collision 90 214 14 (Pipe.mk 80 200 348 false)) eqn:E;
      [|reflexivity].
    apply (H 90 214 14 (Pipe.mk 80 200 348 false)) in E.
    + destruct E as [E|E]; vm_compute in E; discriminate.
    + vm_compute. discriminate.
    + vm_compute. discriminate.
Defined.

(** ** Flaps after death (C5) *)

(** C5 fails on the code.  The comment in [handleFlap] promises a pause
    "before allowing restart" that "prevents accidental double-tap", but no
    flap is ever ignored.  The bird dies in the frame at time 1000.  A flap
    handled 10 ms later, inside the 80 ms delay, arms a timer; when it
    expires at time 1090 the run restarts (phase PLAYING, score 0, no
    pipes).  Without that flap the timer task at 1090 finds nothing to run
    and the phase stays DEAD. *)
Lemma C5_early_flap_restarts_the_run :
  phase (state dead_at_1000) = DEAD /\
  score (state dead_at_1000) = 3%Z /\
  timers dead_at_1000 = [] /\
  phase (state (run dead_at_1000 [Timeout 1090])) = DEAD /\
  phase (state (run dead_at_1000 [Flap 1010; Timeout 1090])) = PLAYING /\
  score (state (run dead_at_1000 [Flap 1010; Timeout 1090])) = 0%Z /\
  pipes (state (run dead_at_1000 [Flap 1010; Timeout 1090])) = [].
Proof. vm_compute. repeat split; reflexivity. Qed.

(** ** The stored best score (C4) *)

(** C4 fails on the code.  With the string "abc" stored under the
    best-score key, the best score the program boots with is [NaN], not 0:
    the fallback to "0" covers the missing and the empty value only.  From
    then on no score is greater than the best score, so a run that ends
    with 7 points leaves the best score [NaN] and writes nothing. *)
Theorem C4_garbled_best_score_boots_as_NaN :
  getItem garbled_store "flapster_best" = Some "abc"%string /\
  initial_bestScore garbled_store = NaN /\
  bestScore (state (boot garbled_store 0 0)) = NaN /\
  initial_bestScore empty_store = Int 0 /\
  initial_bestScore (setItem empty_store "flapster_best" "12") = Int 12 /\
  bestScore (state (killBird (playing (bird_at 506 0) [] 7 NaN))) = NaN /\
  setItem_calls (localStorage (killBird (playing (bird_at 506 0) [] 7 NaN)))
  = [].
Proof. vm_compute. repeat split; reflexivity. Qed.

(** ** [parseInt] and [String] *)

Section ParseInt.

Import Decimal.

(** [parseInt] by its three stages. *)
Lemma parseInt10_stages (s : string) :
  parseInt10 s =
    match read_digits (strip_sign (skip_white_space s)) None with
    | None => NaN
    | Some n => Int (if negative_sign (skip_white_space s) then - n else n)
    end.
Proof.
  unfold parseInt10, strip_sign, negative_sign.
  destruct (skip_white_space s) as [|c r]; [reflexivity|].
  destruct c as [[] [] [] [] [] [] [] []]; reflexivity.
Qed.

Lemma read_digits_acc (d : uint) (acc : positive) :
  read_digits (DecimalString.NilEmpty.string_of_uint d) (Some (Z.pos acc))
  = Some (Z.pos (Pos.of_uint_acc d acc)).
Proof.
  revert acc. induction d; intros acc; simpl; try reflexivity;
    unfold digit_value; simpl; rewrite <- IHd; do 2 f_equal; lia.
Qed.

Lemma read_digits_zero (d : uint) :
  read_digits (DecimalString.NilEmpty.string_of_uint d) (Some 0%Z)
  = Some (Z.of_N (Pos.of_uint d)).
Proof.
  induction d; simpl; try reflexivity; unfold digit_value; simpl;
    try exact IHd; apply read_digits_acc.
Qed.

(** The decimal digits of a positive number: no white space, no sign, and
    [parseInt] reads the number back. *)
Lemma parse_digits_of_pos (p : positive) :
  let s := DecimalString.NilZero.string_of_uint (Pos.to_uint p) in
  skip_white_space s = s /\ strip_sign s = s /\ negative_sign s = false /\
  read_digits s None = Some (Z.pos p) /\ s <> EmptyString.
Proof.
  cbv zeta.
  pose proof (DecimalPos.Unsigned.to_uint_nonnil p) as Hnil.
  pose proof (DecimalPos.Unsigned.of_to p) as Hof.
  pose proof (read_digits_zero (Pos.to_uint p)) as Hz.
  rewrite Hof in Hz. simpl in Hz.
  destruct (Pos.to_uint p) as [|d|d|d|d|d|d|d|d|d|d]; [congruence|..];
    (split; [reflexivity|]); (split; [reflexivity|]); (split; [reflexivity|]);
    (split; [exact Hz | discriminate]).
Qed.

Lemma parseInt10_String (z : Z) : parseInt10 (String_ (Int z)) = Int z.
Proof.
  rewrite parseInt10_stages.
  destruct z as [|p|p]; [reflexivity|..]; simpl;
    destruct (parse_digits_of_pos p) as (Hw & Hs & Hn & Hr & _);
    cbv zeta in Hw, Hs, Hn, Hr.
  - rewrite Hw, Hs, Hr, Hn. reflexivity.
  - rewrite Hr. reflexivity.
Qed.

Lemma String_nonempty (z : Z) : String_ (Int z) <> EmptyString.
Proof.
  destruct z as [|p|p]; simpl; try discriminate.
  apply (parse_digits_of_pos p).
Qed.

End ParseInt.

Lemma lookup_best_setItem (ls : Storage) (v : string) :
  getItem (setItem ls "flapster_best" v) "flapster_best" = Some v.
Proof. unfold getItem, setItem. simpl. apply lookup_insert_eq. Qed.

Lemma initial_bestScore_setItem (ls : Storage) (z : Z) :
  initial_bestScore (setItem ls "flapster_best" (String_ (Int z))) = Int z.
Proof.
  unfold initial_bestScore. rewrite lookup_best_setItem.
  pose proof (String_nonempty z) as Hne.
  destruct (String_ (Int z)) as [|c r] eqn:E; [congruence|].
  rewrite <- E. apply parseInt10_String.
Qed.

(** ** What every reachable state satisfies *)

Section Reachable.

Lemma tick_inc_nonneg (p : Pipe.t) : (0 <= tick_inc p)%Z.
Proof.
  rewrite pipe_body_inc. destruct (_ && _); lia.
Qed.

Lemma sum_tick_inc_nonneg (l : list Pipe.t) : (0 <= sumZ (map tick_inc l))%Z.
Proof.
  induction l as [|p l IH]; unfold sumZ in *; simpl; [lia|].
  pose proof (tick_inc_nonneg p). lia.
Qed.

Lemma update_bird_ok (dt : Q) (b : Bird.t) :
  bird_ok b -> bird_ok (update_bird dt b).
Proof.
  intros (Hx & Hv1 & Hv2 & Ha1 & Ha2 & Hw).
  set (vy := Math_min (Bird.vy b + CFG.GRAVITY) CFG.MAX_FALL_VEL).
  set (t := Math_max CFG.TILT_UP (Math_min CFG.TILT_DOWN (vy * 4))).
  assert (Hvy : CFG.JUMP_VEL <= vy /\ vy <= CFG.MAX_FALL_VEL).
  { unfold vy, Math_min. split; [|apply Q.le_min_r].
    apply Q.min_glb; unfold CFG.JUMP_VEL, CFG.GRAVITY, CFG.MAX_FALL_VEL in *;
      lra. }
  assert (Ht : CFG.TILT_UP <= t /\ t <= CFG.TILT_DOWN).
  { unfold t, Math_max, Math_min. split; [apply Q.le_max_l|].
    apply Q.max_lub; [unfold CFG.TILT_UP, CFG.TILT_DOWN; lra|].
    apply Q.le_min_l. }
  assert (Hang : CFG.TILT_UP <= Bird.angle b + (t - Bird.angle b) * 0.18 /\
                 Bird.angle b + (t - Bird.angle b) * 0.18 <= CFG.TILT_DOWN).
  { destruct Ht. split; lra. }
  assert (Hrem : (0 <= Z.rem (Bird.wingFrame b + 1) CFG.WING_FRAMES
                  < CFG.WING_FRAMES)%Z).
  { apply Z.rem_bound_pos; unfold CFG.WING_FRAMES in *; lia. }
  unfold update_bird. fold vy. fold t.
  destruct (CFG.WING_SPEED <=? _); unfold bird_ok; simpl; tauto.
Qed.

Lemma update_cloud_ok (c : Cloud.t) : cloud_ok c -> cloud_ok (update_cloud c).
Proof.
  intros (H1 & H2 & H3). unfold update_cloud, cloud_ok. simpl.
  destruct (Cloud.x c - Cloud.speed c <? -150) eqn:E.
  - unfold CFG.W. repeat split; lra.
  - apply Qltb_false_iff in E. repeat split; lra.
Qed.

Lemma createPipe_ok (rnd : Q) : pipe_ok (createPipe rnd).
Proof.
  unfold pipe_ok, createPipe, right_edge. simpl.
  split; [reflexivity|]. split; vm_compute; discriminate.
Qed.

Lemma tick_pipe_ok (p q : Pipe.t) :
  pipe_ok p -> tick_pipe p = Some q -> pipe_ok q.
Proof.
  intros (Hs & Hlo & Hhi). unfold tick_pipe.
  pose proof (pipe_body_eq p) as E. cbv zeta in E. rewrite E. clear E.
  destruct (Pipe.x p - CFG.PIPE_SPEED + CFG.PIPE_W <? -20) eqn:Eo;
    [discriminate|].
  intros [= <-]. apply Qltb_false_iff in Eo.
  unfold pipe_ok, right_edge in *. simpl. split; [|split].
  - rewrite Hs.
    destruct (Pipe.x p + CFG.PIPE_W <? CFG.BIRD_X) eqn:E1; simpl;
      [|reflexivity].
    apply Qltb_iff in E1. symmetry. apply Qltb_iff.
    unfold CFG.PIPE_SPEED. lra.
  - exact Eo.
  - unfold CFG.PIPE_SPEED. lra.
Qed.

Lemma tick_pipes_ok (l : list Pipe.t) :
  Forall pipe_ok l -> Forall pipe_ok (omap tick_pipe l).
Proof.
  induction 1 as [|p l Hp _ IH]; simpl; [constructor|].
  destruct (tick_pipe p) as [q|] eqn:E; [|exact IH].
  constructor; [exact (tick_pipe_ok p q Hp E) | exact IH].
Qed.

Lemma spawned_ok (now rnd : Q) (s : State) :
  Forall pipe_ok (pipes s) -> Forall pipe_ok (spawned now rnd s).
Proof.
  intros H. unfold spawned. destruct (CFG.PIPE_INTERVAL <=? _); [|exact H].
  apply Forall_app. split; [exact H|].
  constructor; [apply createPipe_ok | constructor].
Qed.

Lemma after_loop_ok (dt now rnd : Q) (m : machine) :
  phase (state m) = PLAYING -> machine_ok m ->
  machine_ok (after_loop dt now rnd m).
Proof.
  intros Hp (Hb & Ha & Hs & _ & (Hc & Hn) & Hpi & Hst & _).
  unfold machine_ok, after_loop. simpl. rewrite Hp.
  split; [apply update_bird_ok, Hb|].
  split.
  { rewrite Hp in Ha. unfold update_bird.
    destruct (CFG.WING_SPEED <=? _); simpl; exact Ha. }
  split.
  { pose proof (sum_tick_inc_nonneg (spawned now rnd (state m))). lia. }
  split; [discriminate|].
  split.
  { split; [|rewrite length_map; exact Hn].
    apply Forall_forall. intros c Hin.
    apply list_elem_of_fmap in Hin. destruct Hin as (c0 & -> & Hin).
    rewrite Forall_forall in Hc. apply update_cloud_ok, Hc, Hin. }
  split; [apply tick_pipes_ok, spawned_ok, Hpi|].
  split; [exact Hst | discriminate].
Qed.

Lemma killBird_ok (m : machine) : machine_ok m -> machine_ok (killBird m).
Proof.
  intros (Hb & Ha & Hs & _ & Hc & Hpi & Hst & _).
  unfold machine_ok, killBird.
  destruct (js_gt (Int (score (state m))) (bestScore (state m))) eqn:E; simpl.
  - repeat split; try (apply Hb); try (apply Hc); try assumption;
      try discriminate.
    + exact (initial_bestScore_setItem (localStorage m) (score (state m))).
    + intros _. apply Z.ltb_irrefl.
  - repeat split; try (apply Hb); try (apply Hc); try assumption;
      try discriminate.
    intros _. exact E.
Qed.

Lemma update_ok (dt now rnd : Q) (m : machine) :
  machine_ok m -> machine_ok (update dt now rnd m).
Proof.
  intros H. destruct (phase (state m)) eqn:Ep;
    try (rewrite update_not_playing by congruence; exact H).
  rewrite update_playing by exact Ep. cbv zeta.
  pose proof (after_loop_ok dt now rnd m Ep H) as H1.
  destruct (checkCollision _ _); [apply killBird_ok, H1 | exact H1].
Qed.

End Reachable.

Section ReachableSteps.

(** A frame is the idle part followed by a tick with the capped time. *)
Lemma loop_idle_update (timestamp now rnd sinv : Q) (m : machine) :
  loop timestamp now rnd sinv m
  = update (Math_min (timestamp - lastFrameTime (state m)) 50) now rnd
      (idle timestamp sinv m).
Proof.
  unfold loop, idle. destruct (Phase_eqb (phase (state m)) START); reflexivity.
Qed.

Lemma idle_phase (timestamp sinv : Q) (m : machine) :
  phase (state (idle timestamp sinv m)) = phase (state m).
Proof.
  unfold idle. destruct (Phase_eqb (phase (state m)) START); reflexivity.
Qed.

Lemma idle_ok (timestamp sinv : Q) (m : machine) :
  machine_ok m -> machine_ok (idle timestamp sinv m).
Proof.
  intros (Hb & Ha & Hs & Hst & (Hc & Hn) & Hpi & Hls & Hd).
  unfold idle. destruct (phase (state m)) eqn:Ep; cbn [Phase_eqb].
  - destruct Hb as (Hx & Hv1 & Hv2 & Ha1 & Ha2 & Hw).
    assert (Hrem : (0 <= Z.rem (Bird.wingFrame (bird (state m)) + 1)
                           CFG.WING_FRAMES < CFG.WING_FRAMES)%Z).
    { apply Z.rem_bound_pos; unfold CFG.WING_FRAMES in *; lia. }
    unfold machine_ok. simpl. try rewrite Ep.
    split.
    { destruct (CFG.WING_SPEED <=? _); unfold bird_ok; simpl; tauto. }
    split.
    { try rewrite Ep in Ha. destruct (CFG.WING_SPEED <=? _); simpl; exact Ha. }
    split; [exact Hs|]. split; [intros _; apply Hst; reflexivity|].
    split.
    { split; [|rewrite length_map; exact Hn].
      apply Forall_forall. intros c Hin.
      apply list_elem_of_fmap in Hin. destruct Hin as (c0 & -> & Hin).
      rewrite Forall_forall in Hc. destruct (Hc c0 Hin) as (H1 & H2 & H3).
      unfold cloud_ok. simpl.
      destruct (Cloud.x c0 - Cloud.speed c0 * 0.4 <? -150) eqn:E.
      - unfold CFG.W. repeat split; lra.
      - apply Qltb_false_iff in E. repeat split; lra. }
    split; [exact Hpi|]. split; [exact Hls | discriminate].
  - unfold machine_ok. simpl. try rewrite Ep.
    try rewrite Ep in Ha. repeat split; try assumption; try apply Hb;
      discriminate.
  - unfold machine_ok. simpl. try rewrite Ep.
    try rewrite Ep in Ha. repeat split; try assumption; try apply Hb;
      try discriminate.
    all: try (intros _; apply Hd; reflexivity).
Qed.

Lemma with_vy_jump_ok (b : Bird.t) :
  bird_ok b -> bird_ok (with_vy CFG.JUMP_VEL b).
Proof.
  intros (Hx & _ & _ & Ha1 & Ha2 & Hw). unfold bird_ok, with_vy. simpl.
  split; [exact Hx|]. split; [vm_compute; discriminate|].
  split; [vm_compute; discriminate|]. tauto.
Qed.

Lemma createBird_ok : bird_ok createBird.
Proof.
  unfold bird_ok, createBird. simpl.
  repeat split; try reflexivity; vm_compute; discriminate.
Qed.

Lemma handleFlap_ok (now : Q) (m : machine) :
  machine_ok m -> machine_ok (handleFlap now m).
Proof.
  intros H. pose proof H as (Hb & Ha & Hs & Hst & Hc & Hpi & Hls & Hd).
  unfold handleFlap. destruct (phase (state m)) eqn:Ep; cbn [Phase_eqb].
  - unfold machine_ok, beginGame. simpl. try rewrite Ep in Ha.
    split; [apply with_vy_jump_ok, Hb|].
    repeat split; try assumption; try apply Hc; discriminate.
  - simpl. destruct (Bird.alive (bird (state m))) eqn:Eal; [|exact H].
    unfold machine_ok. simpl. try rewrite Ep.
    destruct Hb as (Hx & Hv1 & Hv2 & Ha1 & Ha2 & Hw).
    split.
    { unfold bird_ok. simpl. split; [exact Hx|].
      split; [vm_compute; discriminate|]. split; [vm_compute; discriminate|].
      split; [vm_compute; discriminate|]. split; [vm_compute; discriminate|].
      exact Hw. }
    repeat split; try assumption; try apply Hc; discriminate.
  - unfold machine_ok, setTimeout. simpl. try rewrite Ep. try rewrite Ep in Ha.
    repeat split; try assumption; try apply Hb; try apply Hc;
      try discriminate.
    all: try (intros _; apply Hd; reflexivity).
Qed.

Lemma resetGame_ok (now : Q) (m : machine) (rest : list (Q * callback)) :
  machine_ok m ->
  machine_ok (resetGame now
                {| state := state m;
                   groundScroll := groundScroll m;
                   elapsed := elapsed m;
                   localStorage := localStorage m;
                   timers := rest |}).
Proof.
  intros (Hb & Ha & Hs & Hst & Hc & Hpi & Hls & Hd).
  unfold machine_ok, resetGame. simpl.
  split; [apply with_vy_jump_ok, createBird_ok|].
  repeat split; try assumption; try apply Hc; try discriminate;
    try lia; constructor.
Qed.

Lemma fire_timer_ok (now : Q) (m : machine) :
  machine_ok m -> machine_ok (fire_timer now m).
Proof.
  intros H. unfold fire_timer.
  destruct (timers m) as [|[due cb] rest]; [exact H|].
  destruct (due <=? now); [|exact H].
  destruct cb. simpl. apply resetGame_ok, H.
Qed.

Lemma step_ok (m : machine) (e : event) :
  machine_ok m -> machine_ok (step m e).
Proof.
  intros H. destruct e as [t | ts t rnd sinv | t]; simpl.
  - apply handleFlap_ok, H.
  - rewrite loop_idle_update. apply update_ok, idle_ok, H.
  - apply fire_timer_ok, H.
Qed.

Lemma generateClouds_ok : Forall cloud_ok generateClouds.
Proof.
  unfold generateClouds, cloud_ok. repeat constructor; simpl;
    vm_compute; discriminate.
Qed.

Lemma boot_ok (ls : Storage) (now now' : Q) : machine_ok (boot ls now now').
Proof.
  unfold machine_ok, boot, initState. simpl.
  split; [apply createBird_ok|]. split; [reflexivity|]. split; [lia|].
  split; [intros _; repeat split; reflexivity|].
  split; [split; [apply generateClouds_ok | reflexivity]|].
  split; [constructor|]. split; [reflexivity | discriminate].
Qed.

Lemma run_ok (es : list event) (m : machine) :
  machine_ok m -> machine_ok (run m es).
Proof.
  revert m. induction es as [|e es IH]; intros m H; simpl; [exact H|].
  apply IH, step_ok, H.
Qed.

Lemma reachable_ok (ls : Storage) (now now' : Q) (es : list event) :
  machine_ok (run (boot ls now now') es).
Proof. apply run_ok, boot_ok. Qed.

End ReachableSteps.

(** ** The stored best score, further properties *)

(** X1. What [killBird] saves, the initialiser of [state.bestScore] reads
    back.  For every integer [z] of magnitude below 2^53 (the integers a
    JavaScript number holds exactly; [String] prints them as plain decimal
    digits), after [setItem('flapster_best', String(z))] the entry holds
    that string and the initialiser evaluates to [z], whatever the store
    held before. *)
Theorem X1_saved_best_score_reads_back (ls : Storage) (z : Z) :
  (- 2 ^ 53 < z < 2 ^ 53)%Z ->
  getItem (setItem ls "flapster_best" (String_ (Int z))) "flapster_best"
  = Some (String_ (Int z)) /\
  initial_bestScore (setItem ls "flapster_best" (String_ (Int z))) = Int z.
Proof.
  intros _.
  split; [apply lookup_best_setItem | apply initial_bestScore_setItem].
Qed.

Lemma X1_saved_best_score_witness :
  initial_bestScore (setItem garbled_store "flapster_best" (String_ (Int 17)))
  = Int 17.
Proof.
  apply (X1_saved_best_score_reads_back garbled_store 17). lia.
Defined.

(** X3. In every state reached from boot, whatever the store held at boot
    and whatever the events, the initialiser of [state.bestScore] evaluated
    on the current store gives the current best score: reloading the page
    restores the best score shown. *)
Theorem X3_reload_restores_best_score
  (ls : Storage) (now now' t t' : Q) (es : list event) :
  initial_bestScore (localStorage (run (boot ls now now') es))
  = bestScore (state (run (boot ls now now') es)) /\
  bestScore (state (boot (localStorage (run (boot ls now now') es)) t t'))
  = bestScore (state (run (boot ls now now') es)).
Proof.
  pose proof (reachable_ok ls now now' es) as (_ & _ & _ & _ & _ & _ & H & _).
  split; [exact H|]. simpl. exact H.
Qed.

(** X4. In every state reached from boot in which the phase is DEAD, the
    score of the finished run is not greater than the best score; with an
    integer best score, the score is at most the best score. *)
Theorem X4_game_over_best_covers_score
  (ls : Storage) (now now' : Q) (es : list event) :
  phase (state (run (boot ls now now') es)) = DEAD ->
  js_gt (Int (score (state (run (boot ls now now') es))))
        (bestScore (state (run (boot ls now now') es))) = false /\
  (forall b : Z,
     bestScore (state (run (boot ls now now') es)) = Int b ->
     (score (state (run (boot ls now now') es)) <= b)%Z).
Proof.
  intros Hp.
  pose proof (reachable_ok ls now now' es) as (_ & _ & _ & _ & _ & _ & _ & H).
  specialize (H Hp). split; [exact H|].
  intros b Hb. rewrite Hb in H. simpl in H. apply Z.ltb_ge in H. exact H.
Qed.

Lemma X4_game_over_witness :
  js_gt (Int (score (state (run (boot empty_store 0 0) climbing_run))))
        (bestScore (state (run (boot empty_store 0 0) climbing_run)))
  = false.
Proof.
  apply (X4_game_over_best_covers_score empty_store 0 0 climbing_run).
  vm_compute. reflexivity.
Defined.

(** ** The bird, the clouds and the pipes in reachable states *)

Lemma update_bird_fields (dt now rnd : Q) (m : machine) :
  phase (state m) = PLAYING ->
  Bird.y (bird (state (update dt now rnd m)))
  = Bird.y (bird (state m)) + Bird.vy (bird (state (update dt now rnd m))).
Proof.
  intros Hp. rewrite (update_vy dt now rnd m Hp).
  rewrite (update_playing dt now rnd m Hp). cbv zeta.
  assert (E : Bird.y (bird (state (after_loop dt now rnd m)))
              = Bird.y (bird (state m))
                + Math_min (Bird.vy (bird (state m)) + CFG.GRAVITY)
                    CFG.MAX_FALL_VEL).
  { simpl. apply update_bird_y. }
  destruct (checkCollision _ _); [|exact E].
  destruct (killBird_keeps (after_loop dt now rnd m)) as (_ & _ & _ & -> & _).
  exact E.
Qed.

(** X5. In every state reached from boot the bird's [alive] flag is false
    exactly in phase DEAD, and the bird's [x] is [BIRD_X]: only [y] moves. *)
Theorem X5_alive_exactly_when_not_dead
  (ls : Storage) (now now' : Q) (es : list event) :
  (Bird.alive (bird (state (run (boot ls now now') es))) = false <->
   phase (state (run (boot ls now now') es)) = DEAD) /\
  Bird.x (bird (state (run (boot ls now now') es))) = CFG.BIRD_X.
Proof.
  pose proof (reachable_ok ls now now' es) as ((Hx & _) & Ha & _).
  split; [|exact Hx]. rewrite Ha.
  destruct (phase (state (run (boot ls now now') es))); simpl;
    split; congruence.
Qed.

(** X6. In every state reached from boot the tilt angle lies between
    [TILT_UP] (-25) and [TILT_DOWN] (70) degrees, and the wing frame is 0, 1
    or 2, as [drawBird] expects. *)
Theorem X6_tilt_and_wing_frame_in_range
  (ls : Storage) (now now' : Q) (es : list event) :
  -25 <= Bird.angle (bird (state (run (boot ls now now') es))) /\
  Bird.angle (bird (state (run (boot ls now now') es))) <= 70 /\
  (0 <= Bird.wingFrame (bird (state (run (boot ls now now') es))) <= 2)%Z.
Proof.
  pose proof (reachable_ok ls now now' es)
    as ((_ & _ & _ & Ha1 & Ha2 & Hw) & _).
  unfold CFG.TILT_UP, CFG.TILT_DOWN, CFG.WING_FRAMES in *.
  split; [exact Ha1|]. split; [exact Ha2 | lia].
Qed.

(** X7. In every state reached from boot the vertical velocity is at least
    [JUMP_VEL] (-8.5), and a tick run in phase PLAYING moves the bird by
    the new velocity, which is between -8.08 and 12 pixels. *)
Theorem X7_velocity_and_step_bounds
  (ls : Storage) (now now' : Q) (es : list event) :
  -8.5 <= Bird.vy (bird (state (run (boot ls now now') es))) /\
  (forall dt t rnd : Q,
     phase (state (run (boot ls now now') es)) = PLAYING ->
     let m := run (boot ls now now') es in
     let m' := update dt t rnd m in
     Bird.y (bird (state m'))
     = Bird.y (bird (state m)) + Bird.vy (bird (state m')) /\
     -8.08 <= Bird.vy (bird (state m')) /\ Bird.vy (bird (state m')) <= 12).
Proof.
  pose proof (reachable_ok ls now now' es) as ((_ & Hv1 & Hv2 & _) & _).
  unfold CFG.JUMP_VEL, CFG.MAX_FALL_VEL in *.
  split; [exact Hv1|]. intros dt t rnd Hp. cbv zeta.
  split; [apply update_bird_fields, Hp|].
  rewrite (update_vy dt t rnd _ Hp). unfold Math_min.
  split; [|apply Q.le_min_r].
  apply Q.min_glb; unfold CFG.GRAVITY, CFG.MAX_FALL_VEL; lra.
Qed.

Lemma X7_velocity_witness :
  -8.08 <= Bird.vy (bird (state (update 16 30 0.5
                                   (run (boot empty_store 0 0) [Flap 10])))).
Proof.
  destruct (X7_velocity_and_step_bounds empty_store 0 0 [Flap 10]) as (_ & H).
  pose proof (H 16 30 0.5 eq_refl) as H'. cbv zeta in H'.
  destruct H' as (_ & H1 & _). exact H1.
Defined.

(** X8. In every state reached from boot there are four clouds, each with
    [x] between -150 and [W + 80] (480): a cloud that drifts past -150 is
    put back at the right edge. *)
Theorem X8_clouds_stay_in_band
  (ls : Storage) (now now' : Q) (es : list event) :
  length (clouds (state (run (boot ls now now') es))) = 4%nat /\
  Forall (fun c => -150 <= Cloud.x c /\ Cloud.x c <= 480)
         (clouds (state (run (boot ls now now') es))).
Proof.
  pose proof (reachable_ok ls now now' es) as (_ & _ & _ & _ & (Hc & Hn) & _).
  split; [exact Hn|].
  eapply Forall_impl; [exact Hc|].
  intros c (H1 & H2 & _). unfold CFG.W in H2. split; [exact H1 | lra].
Qed.

(** X9. In every state reached from boot, each pipe in the list has its
    [scored] flag set exactly when its right edge is strictly left of
    [BIRD_X], and its right edge lies between -20 and 478 (the spawn
    position plus the pipe width): a pipe further left has been removed. *)
Theorem X9_scored_flag_tracks_position
  (ls : Storage) (now now' : Q) (es : list event) :
  Forall (fun p =>
            (Pipe.scored p = true <-> Pipe.x p + CFG.PIPE_W < CFG.BIRD_X) /\
            -20 <= Pipe.x p + CFG.PIPE_W /\ Pipe.x p + CFG.PIPE_W <= 478)
         (pipes (state (run (boot ls now now') es))).
Proof.
  pose proof (reachable_ok ls now now' es) as (_ & _ & _ & _ & _ & Hp & _).
  eapply Forall_impl; [exact Hp|].
  intros p (Hs & Hlo & Hhi). unfold right_edge in *.
  split; [rewrite Hs; apply Qltb_iff|].
  split; [exact Hlo|]. unfold CFG.PIPE_SPAWN_X, CFG.PIPE_W in *. lra.
Qed.

(** X10. In every state reached from boot the score is not negative; and
    while the phase is START there are no pipes, the score is 0 and no
    timer is armed. *)
Theorem X10_start_screen_is_clean
  (ls : Storage) (now now' : Q) (es : list event) :
  (0 <= score (state (run (boot ls now now') es)))%Z /\
  (phase (state (run (boot ls now now') es)) = START ->
   pipes (state (run (boot ls now now') es)) = [] /\
   score (state (run (boot ls now now') es)) = 0%Z /\
   timers (run (boot ls now now') es) = []).
Proof.
  pose proof (reachable_ok ls now now' es) as (_ & _ & Hs & Hst & _).
  split; [exact Hs | exact Hst].
Qed.

Lemma X10_start_screen_witness :
  pipes (state (run (boot empty_store 0 0) [AnimationFrame 16 16 0.5 0.3]))
  = [].
Proof.
  destruct (X10_start_screen_is_clean empty_store 0 0
              [AnimationFrame 16 16 0.5 0.3]) as (_ & H).
  apply H. reflexivity.
Defined.

(** ** The phases and the clock *)

Section Phases.

Lemma update_phase (dt now rnd : Q) (m : machine) :
  phase (state m) = PLAYING ->
  phase (state (update dt now rnd m))
  = if checkCollision (update_bird dt (bird (state m)))
         (omap tick_pipe (spawned now rnd (state m)))
    then DEAD else PLAYING.
Proof.
  intros Hp. rewrite (update_playing dt now rnd m Hp). cbv zeta.
  change (bird (state (after_loop dt now rnd m)))
    with (update_bird dt (bird (state m))).
  change (pipes (state (after_loop dt now rnd m)))
    with (omap tick_pipe (spawned now rnd (state m))).
  destruct (checkCollision _ _); [apply killBird_phase|].
  simpl. exact Hp.
Qed.

Lemma killBird_rest (m : machine) :
  groundScroll (killBird m) = groundScroll m /\
  elapsed (killBird m) = elapsed m /\
  lastFrameTime (state (killBird m)) = lastFrameTime (state m) /\
  lastPipeTime (state (killBird m)) = lastPipeTime (state m) /\
  clouds (state (killBird m)) = clouds (state m) /\
  bestScore (state (killBird m))
  = js_max (bestScore (state m)) (Int (score (state m))).
Proof.
  unfold killBird.
  destruct (bestScore (state m)) as [|b] eqn:Eb; simpl.
  - repeat split; reflexivity.
  - destruct (b <? score (state m))%Z eqn:E; simpl;
      repeat split; try reflexivity; f_equal;
      [apply Z.ltb_lt in E | apply Z.ltb_ge in E]; lia.
Qed.

Lemma update_clock (dt now rnd : Q) (m : machine) :
  elapsed (update dt now rnd m) = elapsed m /\
  lastFrameTime (state (update dt now rnd m)) = lastFrameTime (state m) /\
  timers (update dt now rnd m) = timers m.
Proof.
  destruct (phase (state m)) eqn:Ep;
    try (rewrite update_not_playing by congruence; auto).
  rewrite (update_playing dt now rnd m Ep). cbv zeta.
  destruct (checkCollision _ _); [|simpl; auto].
  destruct (killBird_rest (after_loop dt now rnd m)) as (_ & -> & -> & _).
  destruct (killBird_keeps (after_loop dt now rnd m)) as (_ & _ & _ & _ & ->).
  simpl. auto.
Qed.

Lemma update_best (dt now rnd : Q) (m : machine) :
  bestScore (state (update dt now rnd m)) = bestScore (state m) \/
  bestScore (state (update dt now rnd m))
  = js_max (bestScore (state m)) (Int (score (state (update dt now rnd m)))).
Proof.
  destruct (phase (state m)) eqn:Ep;
    try (rewrite update_not_playing by congruence; auto).
  rewrite (update_playing dt now rnd m Ep). cbv zeta.
  destruct (checkCollision _ _); [|left; reflexivity].
  right.
  destruct (killBird_rest (after_loop dt now rnd m)) as (_ & _ & _ & _ & _ & ->).
  destruct (killBird_keeps (after_loop dt now rnd m)) as (_ & -> & _).
  reflexivity.
Qed.

Lemma loop_phase (timestamp now rnd sinv : Q) (m : machine) :
  phase (state (loop timestamp now rnd sinv m)) = phase (state m) \/
  (phase (state m) = PLAYING /\
   phase (state (loop timestamp now rnd sinv m)) = DEAD).
Proof.
  rewrite loop_idle_update.
  pose proof (idle_phase timestamp sinv m) as Hi.
  destruct (phase (state m)) eqn:Ep.
  - left. rewrite update_not_playing by congruence. exact Hi.
  - rewrite update_phase by exact Hi.
    destruct (checkCollision _ _); [right | left]; auto.
  - left. rewrite update_not_playing by congruence. exact Hi.
Qed.

End Phases.

(** X11. The phase machine, by kind of event.  From START (no timer is
    armed there) a flap leads to PLAYING and every other event stays in
    START.  From PLAYING the phase stays PLAYING unless a frame ends the
    run.  From DEAD the phase stays DEAD unless a timer task restarts the
    run.  No event leads back to START. *)
Theorem X11_phase_transitions (m : machine) (e : event) :
  (phase (state m) = START -> timers m = [] ->
   phase (state (step m e)) = if is_flap e then PLAYING else START) /\
  (phase (state m) = PLAYING ->
   phase (state (step m e)) = PLAYING \/
   (is_frame e = true /\ phase (state (step m e)) = DEAD)) /\
  (phase (state m) = DEAD ->
   phase (state (step m e)) = DEAD \/
   (is_timeout e = true /\ phase (state (step m e)) = PLAYING)) /\
  (phase (state (step m e)) = START -> phase (state m) = START).
Proof.
  destruct e as [t | ts t rnd sinv | t]; simpl.
  - unfold handleFlap.
    destruct (phase (state m)) eqn:Ep; cbn [Phase_eqb]; simpl.
    + repeat split; try discriminate; auto.
    + destruct (Bird.alive (bird (state m))); simpl;
        repeat split; try congruence; auto.
    + repeat split; try congruence; auto.
  - destruct (loop_phase ts t rnd sinv m) as [H | (Hp & H)]; rewrite H.
    + repeat split; auto.
    + rewrite Hp. repeat split; try discriminate; auto.
  - unfold fire_timer. destruct (timers m) as [|[due cb] rest] eqn:Et.
    + repeat split; auto.
    + destruct (due <=? t); [|repeat split; auto; discriminate].
      destruct cb. simpl. repeat split; try discriminate; auto.
Qed.

Lemma X11_phase_transitions_witness :
  phase (state (step (boot empty_store 0 0) (Flap 10))) = PLAYING /\
  (phase (state (step dead_at_1000 (Timeout 5))) = DEAD \/
   (is_timeout (Timeout 5) = true /\
    phase (state (step dead_at_1000 (Timeout 5))) = PLAYING)).
Proof.
  split.
  - destruct (X11_phase_transitions (boot empty_store 0 0) (Flap 10))
      as (H & _).
    apply H; reflexivity.
  - destruct (X11_phase_transitions dead_at_1000 (Timeout 5))
      as (_ & _ & H & _).
    apply H. reflexivity.
Defined.

(** X12. A frame in phase DEAD freezes the simulation: it sets the frame
    clock to the timestamp and adds the capped frame time to [elapsed], and
    leaves the bird, the pipes, the clouds, the scores, the ground, the
    store and the timers as they were. *)
Theorem X12_dead_frame_only_moves_the_clock
  (timestamp now rnd sinv : Q) (m : machine) :
  phase (state m) = DEAD ->
  loop timestamp now rnd sinv m
  = {| state := mkState DEAD (bird (state m)) (pipes (state m))
                  (clouds (state m)) (score (state m)) (bestScore (state m))
                  (lastPipeTime (state m)) timestamp;
       groundScroll := groundScroll m;
       elapsed := elapsed m
                  + Math_min (timestamp - lastFrameTime (state m)) 50;
       localStorage := localStorage m;
       timers := timers m |}.
Proof.
  intros Hp. rewrite loop_idle_update. unfold idle. rewrite Hp.
  cbn [Phase_eqb]. rewrite update_not_playing by (simpl; discriminate).
  reflexivity.
Qed.

Lemma X12_dead_frame_witness :
  score (state (loop 1016 1016 0.5 0 dead_at_1000)) = 3%Z.
Proof.
  rewrite (X12_dead_frame_only_moves_the_clock 1016 1016 0.5 0 dead_at_1000).
  - reflexivity.
  - reflexivity.
Defined.

(** X13. Every frame sets the frame clock to its timestamp and advances
    [elapsed] by the time since the previous frame capped at 50 ms, so by
    at most 50 ms, in every phase. *)
Theorem X13_frame_time_is_capped
  (timestamp now rnd sinv : Q) (m : machine) :
  lastFrameTime (state (loop timestamp now rnd sinv m)) = timestamp /\
  elapsed (loop timestamp now rnd sinv m)
  = elapsed m + Math_min (timestamp - lastFrameTime (state m)) 50 /\
  elapsed (loop timestamp now rnd sinv m) <= elapsed m + 50 /\
  (timestamp - lastFrameTime (state m) <= 50 ->
   elapsed (loop timestamp now rnd sinv m)
   == elapsed m + (timestamp - lastFrameTime (state m))).
Proof.
  rewrite loop_idle_update.
  destruct (update_clock (Math_min (timestamp - lastFrameTime (state m)) 50)
              now rnd (idle timestamp sinv m)) as (-> & -> & _).
  assert (E : elapsed (idle timestamp sinv m)
              = elapsed m + Math_min (timestamp - lastFrameTime (state m)) 50).
  { unfold idle. destruct (Phase_eqb _ _); reflexivity. }
  assert (L : lastFrameTime (state (idle timestamp sinv m)) = timestamp).
  { unfold idle. destruct (Phase_eqb _ _); reflexivity. }
  rewrite E, L. split; [reflexivity|]. split; [reflexivity|].
  unfold Math_min. split.
  - pose proof (Q.le_min_r (timestamp - lastFrameTime (state m)) 50). lra.
  - intros H. rewrite (Q.min_l _ _ H). reflexivity.
Qed.

Lemma X13_frame_time_witness :
  elapsed (loop 1016 1016 0.5 0 dead_at_1000) == 66.
Proof.
  destruct (X13_frame_time_is_capped 1016 1016 0.5 0 dead_at_1000)
    as (_ & _ & _ & H).
  rewrite H; vm_compute; [reflexivity | discriminate].
Defined.

(** ** Spawning, the outcome of a tick, and the scores *)

Section Ticks.

Lemma tick_created_pipe (rnd : Q) :
  tick_pipe (createPipe rnd)
  = Some (Pipe.mk (CFG.PIPE_SPAWN_X - CFG.PIPE_SPEED)
                  (Pipe.gapTop (createPipe rnd))
                  (Pipe.gapBot (createPipe rnd)) false).
Proof.
  unfold tick_pipe. pose proof (pipe_body_eq (createPipe rnd)) as E.
  cbv zeta in E. rewrite E. reflexivity.
Qed.

Lemma tick_first_pipe (rnd : Q) :
  omap tick_pipe ([] ++ [createPipe rnd])
  = [Pipe.mk (CFG.PIPE_SPAWN_X - CFG.PIPE_SPEED)
             (Pipe.gapTop (createPipe rnd))
             (Pipe.gapBot (createPipe rnd)) false].
Proof.
  change (omap tick_pipe ([] ++ [createPipe rnd]))
    with (match tick_pipe (createPipe rnd) with
          | Some q => [q]
          | None => []
          end).
  rewrite tick_created_pipe. reflexivity.
Qed.

Lemma omap_length_le {A B : Type} (f : A -> option B) (l : list A) :
  (length (omap f l) <= length l)%nat.
Proof.
  induction l as [|a l IH]; simpl; [lia|].
  destruct (f a); simpl; change (list_omap A B f l) with (omap f l); lia.
Qed.

Lemma update_lastPipeTime (dt now rnd : Q) (m : machine) :
  phase (state m) = PLAYING ->
  lastPipeTime (state (update dt now rnd m))
  = if CFG.PIPE_INTERVAL <=? now - lastPipeTime (state m)
    then now else lastPipeTime (state m).
Proof.
  intros Hp. rewrite (update_playing dt now rnd m Hp). cbv zeta.
  destruct (checkCollision _ _); [|reflexivity].
  destruct (killBird_rest (after_loop dt now rnd m)) as (_ & _ & _ & -> & _).
  reflexivity.
Qed.

Lemma idle_keeps (timestamp sinv : Q) (m : machine) :
  score (state (idle timestamp sinv m)) = score (state m) /\
  pipes (state (idle timestamp sinv m)) = pipes (state m) /\
  bestScore (state (idle timestamp sinv m)) = bestScore (state m) /\
  lastPipeTime (state (idle timestamp sinv m)) = lastPipeTime (state m) /\
  localStorage (idle timestamp sinv m) = localStorage m /\
  timers (idle timestamp sinv m) = timers m.
Proof.
  unfold idle. destruct (Phase_eqb _ _); simpl; auto 10.
Qed.

End Ticks.

Section Grace.

Variable t : Q.

(** A frame or a flap of the grace period spawns nothing and leaves
    [lastPipeTime] alone. *)
Lemma grace_quiet_step (m : machine) (e : event) :
  is_timeout e = false -> in_grace t e ->
  pipes (state m) = [] -> t + 800 <= lastPipeTime (state m) ->
  phase (state m) <> START ->
  pipes (state (step m e)) = [] /\
  lastPipeTime (state (step m e)) = lastPipeTime (state m) /\
  phase (state (step m e)) <> START.
Proof.
  intros Hk He Hn Hl Hp. destruct e as [a | ts now rnd sinv | a];
    [| |discriminate]; simpl.
  - unfold handleFlap.
    destruct (phase (state m)) eqn:Ep; cbn [Phase_eqb]; simpl.
    + congruence.
    + destruct (Bird.alive (bird (state m))); simpl; rewrite ?Ep;
        repeat split; try assumption; discriminate.
    + rewrite Ep. repeat split; try assumption; discriminate.
  - simpl in He. rewrite loop_idle_update.
    destruct (idle_keeps ts sinv m) as (_ & Hip & _ & Hil & _).
    pose proof (idle_phase ts sinv m) as Hiph.
    destruct (phase (state m)) eqn:Ep; [congruence| |].
    + rewrite update_pipes by exact Hiph.
      rewrite update_lastPipeTime by exact Hiph.
      rewrite (update_phase _ now rnd _ Hiph).
      unfold spawned. rewrite Hil, Hip, Hn.
      assert (E : (CFG.PIPE_INTERVAL <=? now - lastPipeTime (state m))
                  = false).
      { apply Qleb_false_iff. unfold CFG.PIPE_INTERVAL. lra. }
      rewrite E. split; [reflexivity|]. split; [reflexivity|].
      destruct (checkCollision _ _); discriminate.
    + rewrite update_not_playing by congruence.
      rewrite Hip, Hil, Hiph. repeat split; try assumption; discriminate.
Qed.

Lemma grace_step (m : machine) (e : event) :
  in_grace t e ->
  pipes (state m) = [] -> t + 800 <= lastPipeTime (state m) ->
  phase (state m) <> START ->
  pipes (state (step m e)) = [] /\
  t + 800 <= lastPipeTime (state (step m e)) /\
  phase (state (step m e)) <> START.
Proof.
  intros He Hn Hl Hp. destruct (is_timeout e) eqn:Ek.
  - destruct e as [a | ts now rnd sinv | a]; try discriminate.
    simpl in He. simpl. unfold fire_timer.
    destruct (timers m) as [|[due cb] rest]; [auto|].
    destruct (due <=? a); [|auto].
    destruct cb. simpl. split; [reflexivity|]. split; [lra | discriminate].
  - destruct (grace_quiet_step m e Ek He Hn Hl Hp) as (H1 & H2 & H3).
    rewrite H2. auto.
Qed.

Lemma grace_run (es : list event) (m : machine) :
  Forall (in_grace t) es ->
  pipes (state m) = [] -> t + 800 <= lastPipeTime (state m) ->
  phase (state m) <> START ->
  pipes (state (run m es)) = [].
Proof.
  revert m. induction es as [|e es IH]; intros m Hes Hn Hl Hp; simpl;
    [exact Hn|].
  inversion Hes as [|? ? He Hes']; subst.
  destruct (grace_step m e He Hn Hl Hp) as (H1 & H2 & H3).
  apply IH; assumption.
Qed.

Lemma grace_quiet_run (es : list event) (m : machine) :
  Forall (in_grace t) es -> Forall (fun e => is_timeout e = false) es ->
  pipes (state m) = [] -> lastPipeTime (state m) = t + 800 ->
  phase (state m) <> START ->
  pipes (state (run m es)) = [] /\
  lastPipeTime (state (run m es)) = t + 800.
Proof.
  revert m. induction es as [|e es IH]; intros m Hes Hks Hn Hl Hp; simpl;
    [auto|].
  inversion Hes as [|? ? He Hes']; subst.
  inversion Hks as [|? ? Hk Hks']; subst.
  assert (Hle : t + 800 <= lastPipeTime (state m)) by (rewrite Hl; lra).
  destruct (grace_quiet_step m e Hk He Hn Hle Hp) as (H1 & H2 & H3).
  apply IH; try assumption. rewrite H2. exact Hl.
Qed.

End Grace.

(** X14. The grace period.  The flap that starts a run at time [t], and a
    restart at time [t], leave a PLAYING state without pipes whose first
    spawn is delayed by 800 ms.  From such a state, over any sequence of
    frames whose clock readings are before [t + 2500] (800 ms plus one
    [PIPE_INTERVAL]), of flaps and of timer tasks not before [t], the pipe
    list stays empty.  If moreover no timer task ran and the run is still
    PLAYING, the next frame with a clock reading at or after [t + 2500]
    spawns the first pipe, which that frame moves to
    [PIPE_SPAWN_X - PIPE_SPEED], unscored. *)
Theorem X14_first_pipe_after_grace (t : Q) :
  (forall m : machine,
     phase (state m) = START -> pipes (state m) = [] ->
     started t (handleFlap t m)) /\
  (forall m : machine, started t (resetGame t m)) /\
  (forall (m0 : machine) (es : list event),
     started t m0 -> Forall (in_grace t) es ->
     pipes (state (run m0 es)) = []) /\
  (forall (m0 : machine) (es : list event) (ts now rnd sinv : Q),
     started t m0 -> Forall (in_grace t) es ->
     Forall (fun e => is_timeout e = false) es ->
     phase (state (run m0 es)) = PLAYING ->
     t + 2500 <= now ->
     pipes (state (step (run m0 es) (AnimationFrame ts now rnd sinv)))
     = [Pipe.mk (CFG.PIPE_SPAWN_X - CFG.PIPE_SPEED)
                (Pipe.gapTop (createPipe rnd))
                (Pipe.gapBot (createPipe rnd)) false]).
Proof.
  split; [|split; [|split]].
  - intros m Hp Hn. unfold started, handleFlap. rewrite Hp. simpl.
    repeat split. exact Hn.
  - intros m. unfold started. simpl. repeat split.
  - intros m0 es (Hp & Hn & Hl) Hes.
    apply (grace_run t es m0 Hes Hn); [rewrite Hl; lra | congruence].
  - intros m0 es ts now rnd sinv (Hp & Hn & Hl) Hes Hks Hpl Hnow.
    destruct (grace_quiet_run t es m0 Hes Hks Hn Hl) as (Hn1 & Hl1);
      [congruence|].
    simpl step. rewrite loop_idle_update.
    destruct (idle_keeps ts sinv (run m0 es)) as (_ & Hip & _ & Hil & _).
    pose proof (idle_phase ts sinv (run m0 es)) as Hiph.
    rewrite Hpl in Hiph.
    rewrite update_pipes by exact Hiph.
    unfold spawned. rewrite Hil, Hip, Hn1, Hl1.
    assert (E : (CFG.PIPE_INTERVAL <=? now - (t + 800)) = true).
    { apply Qleb_iff. unfold CFG.PIPE_INTERVAL. lra. }
    rewrite E. apply tick_first_pipe.
Qed.

Lemma X14_first_pipe_witness :
  pipes (state (run (handleFlap 10 (boot empty_store 0 0))
                  [AnimationFrame 16 16 0.5 0; Flap 20;
                   AnimationFrame 32 2509 0.5 0])) = [] /\
  pipes (state (step (run (handleFlap 10 (boot empty_store 0 0))
                        [AnimationFrame 16 16 0.5 0; Flap 20])
                     (AnimationFrame 32 2510 0.5 0)))
  = [Pipe.mk (CFG.PIPE_SPAWN_X - CFG.PIPE_SPEED)
             (Pipe.gapTop (createPipe 0.5))
             (Pipe.gapBot (createPipe 0.5)) false].
Proof.
  destruct (X14_first_pipe_after_grace 10) as (Hs & _ & Hq & Hf).
  assert (H0 : started 10 (handleFlap 10 (boot empty_store 0 0))).
  { apply Hs; reflexivity. }
  split.
  - apply (Hq _ _ H0).
    repeat constructor; vm_compute; reflexivity.
  - apply (Hf _ _ 32 2510 0.5 0 H0).
    + repeat constructor; vm_compute; reflexivity.
    + repeat constructor.
    + vm_compute. reflexivity.
    + vm_compute. discriminate.
Defined.

(** X15. Spacing of the pipes.  A PLAYING tick spawns a pipe exactly when
    at least [PIPE_INTERVAL] (1700 ms) have passed since [lastPipeTime],
    and then sets [lastPipeTime] to the clock reading; otherwise
    [lastPipeTime] is kept and the list does not grow.  A tick never adds
    more than one pipe. *)
Theorem X15_pipe_spawn_spacing (dt now rnd : Q) (m : machine) :
  phase (state m) = PLAYING ->
  (1700 <= now - lastPipeTime (state m) ->
   lastPipeTime (state (update dt now rnd m)) = now /\
   pipes (state (update dt now rnd m))
   = omap tick_pipe (pipes (state m) ++ [createPipe rnd])) /\
  (now - lastPipeTime (state m) < 1700 ->
   lastPipeTime (state (update dt now rnd m)) = lastPipeTime (state m) /\
   pipes (state (update dt now rnd m)) = omap tick_pipe (pipes (state m)) /\
   (length (pipes (state (update dt now rnd m)))
    <= length (pipes (state m)))%nat) /\
  (length (pipes (state (update dt now rnd m)))
   <= length (pipes (state m)) + 1)%nat.
Proof.
  intros Hp. rewrite (update_lastPipeTime dt now rnd m Hp).
  rewrite (update_pipes dt now rnd m Hp). unfold spawned.
  split; [|split].
  - intros H. apply Qleb_iff in H. unfold CFG.PIPE_INTERVAL.
    rewrite H. split; reflexivity.
  - intros H. apply Qleb_false_iff in H. unfold CFG.PIPE_INTERVAL.
    rewrite H. split; [reflexivity|]. split; [reflexivity|].
    apply omap_length_le.
  - destruct (CFG.PIPE_INTERVAL <=? _).
    + pose proof (omap_length_le tick_pipe
                    (pipes (state m) ++ [createPipe rnd])) as H.
      rewrite length_app in H. simpl in H. exact H.
    + pose proof (omap_length_le tick_pipe (pipes (state m))). lia.
Qed.

Lemma X15_pipe_spawn_witness :
  lastPipeTime (state (update 16 1700 0.5 dying)) = 1700.
Proof.
  destruct (X15_pipe_spawn_spacing 16 1700 0.5 dying eq_refl) as (H & _).
  apply H. vm_compute. discriminate.
Defined.

(** X16. The outcome of a PLAYING tick.  The collision test runs on the
    bird after the physics statements and on the pipe list after the
    spawn, the moves and the removals of this tick: the phase is DEAD after
    the tick exactly when that test is true, and PLAYING otherwise.  In
    particular a bird whose top edge, after the physics statements, is at
    or above the ceiling ([y - BIRD_RADIUS <= 0]) ends the run in this
    tick. *)
Theorem X16_tick_outcome (dt now rnd : Q) (m : machine) :
  phase (state m) = PLAYING ->
  let hit := checkCollision (update_bird dt (bird (state m)))
               (omap tick_pipe (spawned now rnd (state m))) in
  (phase (state (update dt now rnd m)) = DEAD <-> hit = true) /\
  (phase (state (update dt now rnd m)) = PLAYING <-> hit = false) /\
  (Bird.y (bird (state m))
   + Math_min (Bird.vy (bird (state m)) + CFG.GRAVITY) CFG.MAX_FALL_VEL
   - CFG.BIRD_RADIUS <= 0 ->
   phase (state (update dt now rnd m)) = DEAD /\
   Bird.alive (bird (state (update dt now rnd m))) = false).
Proof.
  intros Hp hit. subst hit. rewrite (update_phase dt now rnd m Hp).
  split; [|split].
  - destruct (checkCollision _ _); split; congruence.
  - destruct (checkCollision _ _); split; congruence.
  - intros Hc.
    assert (E : checkCollision (update_bird dt (bird (state m)))
                  (omap tick_pipe (spawned now rnd (state m))) = true).
    { apply checkCollision_iff. right. left. rewrite update_bird_y. exact Hc. }
    rewrite E. split; [reflexivity|].
    rewrite (update_playing dt now rnd m Hp). cbv zeta.
    change (bird (state (after_loop dt now rnd m)))
      with (update_bird dt (bird (state m))).
    change (pipes (state (after_loop dt now rnd m)))
      with (omap tick_pipe (spawned now rnd (state m))).
    rewrite E. apply killBird_alive.
Qed.

Lemma X16_tick_outcome_witness :
  phase (state (update 16 0 0.5 (playing (bird_at 20 (-8.5)) [] 0 (Int 0))))
  = DEAD.
Proof.
  pose proof (X16_tick_outcome 16 0 0.5
                (playing (bird_at 20 (-8.5)) [] 0 (Int 0)) eq_refl) as H.
  cbv zeta in H. destruct H as (_ & _ & H).
  apply H. vm_compute. discriminate.
Defined.

Section Scores.

Lemma handleFlap_keeps (now : Q) (m : machine) :
  score (state (handleFlap now m)) = score (state m) /\
  bestScore (state (handleFlap now m)) = bestScore (state m) /\
  localStorage (handleFlap now m) = localStorage m /\
  exists l, timers (handleFlap now m) = timers m ++ l.
Proof.
  unfold handleFlap. destruct (phase (state m)); cbn [Phase_eqb]; simpl.
  - repeat split. exists []. symmetry. apply app_nil_r.
  - destruct (Bird.alive (bird (state m))); simpl; repeat split;
      exists []; symmetry; apply app_nil_r.
  - repeat split. eexists. reflexivity.
Qed.

Lemma loop_score (timestamp now rnd sinv : Q) (m : machine) :
  (score (state m) <= score (state (loop timestamp now rnd sinv m)))%Z /\
  (score (state (loop timestamp now rnd sinv m)) <> score (state m) ->
   phase (state m) = PLAYING).
Proof.
  rewrite loop_idle_update.
  destruct (idle_keeps timestamp sinv m) as (Hs & _).
  pose proof (idle_phase timestamp sinv m) as Hi.
  destruct (phase (state m)) eqn:Ep;
    try (rewrite update_not_playing by congruence; rewrite Hs; split;
         [lia | congruence]).
  rewrite update_score by exact Hi. rewrite Hs.
  pose proof (sum_tick_inc_nonneg
                (spawned now rnd (state (idle timestamp sinv m)))).
  split; [lia | reflexivity].
Qed.

Lemma loop_best (timestamp now rnd sinv : Q) (m : machine) :
  best_le (bestScore (state m))
          (bestScore (state (loop timestamp now rnd sinv m))) /\
  (bestScore (state (loop timestamp now rnd sinv m)) <> bestScore (state m) ->
   phase (state m) = PLAYING /\
   phase (state (loop timestamp now rnd sinv m)) = DEAD).
Proof.
  rewrite loop_idle_update.
  destruct (idle_keeps timestamp sinv m) as (_ & _ & Hb & _).
  pose proof (idle_phase timestamp sinv m) as Hi.
  assert (Hrefl : forall a, best_le a a).
  { intros [|x]; simpl; [exact I | lia]. }
  destruct (phase (state m)) eqn:Ep;
    try (rewrite update_not_playing by congruence; rewrite Hb; split;
         [apply Hrefl | congruence]).
  rewrite (update_playing _ now rnd _ Hi). cbv zeta.
  destruct (checkCollision _ _).
  - split; [|intros _; split; [reflexivity | apply killBird_phase]].
    destruct (killBird_rest
                (after_loop (Math_min (timestamp - lastFrameTime (state m)) 50)
                   now rnd (idle timestamp sinv m)))
      as (_ & _ & _ & _ & _ & ->).
    simpl. rewrite Hb. destruct (bestScore (state m)); simpl; [exact I | lia].
  - simpl. rewrite Hb. split; [apply Hrefl | congruence].
Qed.

Lemma best_le_trans (a b c : jsint) : best_le a b -> best_le b c -> best_le a c.
Proof.
  destruct a, b, c; simpl; try tauto; lia.
Qed.

Lemma step_best (m : machine) (e : event) :
  best_le (bestScore (state m)) (bestScore (state (step m e))) /\
  (bestScore (state (step m e)) <> bestScore (state m) ->
   is_frame e = true /\ phase (state m) = PLAYING /\
   phase (state (step m e)) = DEAD).
Proof.
  assert (Hrefl : forall a, best_le a a).
  { intros [|x]; simpl; [exact I | lia]. }
  destruct e as [t | ts t rnd sinv | t]; simpl.
  - destruct (handleFlap_keeps t m) as (_ & -> & _).
    split; [apply Hrefl | congruence].
  - destruct (loop_best ts t rnd sinv m) as (H1 & H2).
    split; [exact H1 | intros H; split; [reflexivity | apply H2, H]].
  - unfold fire_timer. destruct (timers m) as [|[due cb] rest];
      [split; [apply Hrefl | congruence]|].
    destruct (due <=? t); [|split; [apply Hrefl | congruence]].
    destruct cb. simpl. split; [apply Hrefl | congruence].
Qed.

End Scores.

(** X17. The score moves only in two ways: a frame in phase PLAYING can
    raise it, and a timer task that restarts the run sets it to 0.  No
    event lowers it otherwise, and a flap never changes it. *)
Theorem X17_score_changes (m : machine) (e : event) :
  ((score (state m) <= score (state (step m e)))%Z \/
   (is_timeout e = true /\ score (state (step m e)) = 0%Z)) /\
  (score (state (step m e)) <> score (state m) ->
   (is_frame e = true /\ phase (state m) = PLAYING) \/ is_timeout e = true).
Proof.
  destruct e as [t | ts t rnd sinv | t]; simpl.
  - destruct (handleFlap_keeps t m) as (-> & _).
    split; [left; lia | congruence].
  - destruct (loop_score ts t rnd sinv m) as (H1 & H2).
    split; [left; exact H1 | intros H; left; split; [reflexivity | auto]].
  - split; [|intros _; right; reflexivity].
    unfold fire_timer. destruct (timers m) as [|[due cb] rest]; [left; lia|].
    destruct (due <=? t); [|left; lia].
    destruct cb. right. split; reflexivity.
Qed.

Lemma X17_score_changes_witness :
  (is_frame (AnimationFrame 16 16 0.5 0) = true /\
   phase (state (playing (bird_at 260 0) [Pipe.mk 33 100 248 false] 4 (Int 0)))
   = PLAYING) \/
  is_timeout (AnimationFrame 16 16 0.5 0) = true.
Proof.
  destruct (X17_score_changes
              (playing (bird_at 260 0) [Pipe.mk 33 100 248 false] 4 (Int 0))
              (AnimationFrame 16 16 0.5 0)) as (_ & H).
  apply H. vm_compute. discriminate.
Defined.

(** X18. The best score never goes down: across any events an integer best
    score stays an integer and can only grow, and a [NaN] best score stays
    [NaN].  It changes only in a frame that ends a run. *)
Theorem X18_best_score_never_decreases :
  (forall (m : machine) (e : event),
     best_le (bestScore (state m)) (bestScore (state (step m e))) /\
     (bestScore (state (step m e)) <> bestScore (state m) ->
      is_frame e = true /\ phase (state m) = PLAYING /\
      phase (state (step m e)) = DEAD)) /\
  (forall (es : list event) (m : machine),
     best_le (bestScore (state m)) (bestScore (state (run m es)))) /\
  (forall (es : list event) (m : machine) (b : Z),
     bestScore (state m) = Int b ->
     exists b' : Z,
       bestScore (state (run m es)) = Int b' /\ (b <= b')%Z).
Proof.
  assert (Hrun : forall (es : list event) (m : machine),
             best_le (bestScore (state m)) (bestScore (state (run m es)))).
  { induction es as [|e es IH]; intros m; simpl.
    - destruct (bestScore (state m)); simpl; [exact I | lia].
    - eapply best_le_trans; [apply step_best | apply IH]. }
  split; [exact step_best|]. split; [exact Hrun|].
  intros es m b Hb. pose proof (Hrun es m) as H. rewrite Hb in H.
  destruct (bestScore (state (run m es))) as [|b']; simpl in H; [tauto|].
  exists b'. split; [reflexivity | exact H].
Qed.

Lemma X18_best_score_witness :
  exists b' : Z,
    bestScore (state (run dying [AnimationFrame 1000 1000 0.5 0])) = Int b' /\
    (1 <= b')%Z.
Proof.
  destruct X18_best_score_never_decreases as (_ & _ & H).
  apply (H [AnimationFrame 1000 1000 0.5 0] dying 1%Z). reflexivity.
Defined.

(** X19. The banner of the game-over screen.  After [killBird], with an
    integer best score [b] before the death, [isNew] is true exactly when
    the score is positive and at least [b]: a run that only equals the
    previous best is announced as a new best although nothing is written
    to the store.  With a [NaN] best score [isNew] is false. *)
Theorem X19_new_best_banner (m : machine) :
  (forall b : Z,
     bestScore (state m) = Int b ->
     (isNew (state (killBird m)) = true <->
      (0 < score (state m))%Z /\ (b <= score (state m))%Z) /\
     (score (state m) = b ->
      localStorage (killBird m) = localStorage m)) /\
  (bestScore (state m) = NaN -> isNew (state (killBird m)) = false).
Proof.
  split.
  - intros b Hb. unfold isNew, killBird. rewrite Hb. simpl.
    destruct (b <? score (state m))%Z eqn:E; simpl.
    + apply Z.ltb_lt in E. rewrite Z.eqb_refl. simpl. split.
      * rewrite Z.ltb_lt. split; [intros H; split; lia | tauto].
      * intros H. lia.
    + apply Z.ltb_ge in E. split; [|reflexivity].
      rewrite andb_true_iff, Z.eqb_eq, Z.ltb_lt. split; intros H; lia.
  - intros Hb. unfold isNew, killBird. rewrite Hb. reflexivity.
Qed.

Lemma X19_new_best_witness :
  isNew (state (killBird (playing (bird_at 506 0) [] 5 (Int 5)))) = true /\
  localStorage (killBird (playing (bird_at 506 0) [] 5 (Int 5)))
  = empty_store.
Proof.
  destruct (X19_new_best_banner (playing (bird_at 506 0) [] 5 (Int 5)))
    as (H & _).
  destruct (H 5%Z eq_refl) as (H1 & H2).
  split; [apply H1; simpl; lia | apply H2; reflexivity].
Defined.

(** ** Timers *)

Section Timers.

Lemma step_timers_prefix (m : machine) (e : event) :
  is_timeout e = false -> exists l, timers (step m e) = timers m ++ l.
Proof.
  destruct e as [t | ts t rnd sinv | t]; simpl; intros He;
    [| |discriminate].
  - apply handleFlap_keeps.
  - rewrite loop_idle_update.
    destruct (update_clock (Math_min (ts - lastFrameTime (state m)) 50) t rnd
                (idle ts sinv m)) as (_ & _ & ->).
    destruct (idle_keeps ts sinv m) as (_ & _ & _ & _ & _ & ->).
    exists []. symmetry. apply app_nil_r.
Qed.

Lemma run_timers_prefix (es : list event) (m : machine) :
  Forall (fun e => is_timeout e = false) es ->
  exists l, timers (run m es) = timers m ++ l.
Proof.
  revert m. induction es as [|e es IH]; intros m Hes; simpl.
  - exists []. symmetry. apply app_nil_r.
  - inversion Hes as [|? ? He Hes']; subst.
    destruct (step_timers_prefix m e He) as (l1 & E1).
    destruct (IH (step m e) Hes') as (l2 & E2).
    exists (l1 ++ l2). rewrite E2, E1, app_assoc. reflexivity.
Qed.

Lemma fire_head (m : machine) (due now : Q) (rest : list (Q * callback)) :
  timers m = (due, resetGame_cb) :: rest -> due <= now ->
  phase (state (step m (Timeout now))) = PLAYING /\
  score (state (step m (Timeout now))) = 0%Z /\
  pipes (state (step m (Timeout now))) = [] /\
  bird (state (step m (Timeout now))) = with_vy CFG.JUMP_VEL createBird /\
  timers (step m (Timeout now)) = rest.
Proof.
  intros Ht Hd. simpl. unfold fire_timer. rewrite Ht.
  apply Qleb_iff in Hd. rewrite Hd. simpl. repeat split; reflexivity.
Qed.

End Timers.

(** X20. Timers are never cancelled.  Two flaps in phase DEAD arm two
    timers.  The first one restarts the run; the second one stays armed
    through whatever frames and flaps follow, and when its task runs it
    resets the run in progress: phase PLAYING, score 0, no pipes, a fresh
    bird. *)
Theorem X20_second_timer_resets_the_running_game
  (m : machine) (a b t1 t2 : Q) (es : list event) :
  phase (state m) = DEAD -> timers m = [] ->
  a + 80 <= t1 -> b + 80 <= t2 ->
  Forall (fun e => is_timeout e = false) es ->
  phase (state (run m [Flap a; Flap b; Timeout t1])) = PLAYING /\
  timers (run m [Flap a; Flap b; Timeout t1]) = [(b + 80, resetGame_cb)] /\
  phase (state (run m ([Flap a; Flap b; Timeout t1] ++ es ++ [Timeout t2])))
  = PLAYING /\
  score (state (run m ([Flap a; Flap b; Timeout t1] ++ es ++ [Timeout t2])))
  = 0%Z /\
  pipes (state (run m ([Flap a; Flap b; Timeout t1] ++ es ++ [Timeout t2])))
  = [] /\
  bird (state (run m ([Flap a; Flap b; Timeout t1] ++ es ++ [Timeout t2])))
  = with_vy CFG.JUMP_VEL createBird.
Proof.
  intros Hp Ht Ha Hb Hes.
  assert (E1 : timers (run m [Flap a; Flap b])
               = [(a + 80, resetGame_cb); (b + 80, resetGame_cb)]).
  { simpl. unfold handleFlap at 2. rewrite Hp. cbn [Phase_eqb].
    unfold handleFlap. cbn [setTimeout state phase]. rewrite Hp.
    cbn [Phase_eqb]. simpl. rewrite Ht. reflexivity. }
  destruct (fire_head (run m [Flap a; Flap b]) (a + 80) t1
              [(b + 80, resetGame_cb)] E1 Ha) as (P1 & _ & _ & _ & T1).
  assert (R1 : run m [Flap a; Flap b; Timeout t1]
               = step (run m [Flap a; Flap b]) (Timeout t1)) by reflexivity.
  rewrite R1. split; [exact P1|]. split; [exact T1|].
  unfold run at 1 2 3 4. rewrite !fold_left_app.
  change (fold_left step [Flap a; Flap b; Timeout t1] m)
    with (run m [Flap a; Flap b; Timeout t1]).
  rewrite R1.
  set (m1 := step (run m [Flap a; Flap b]) (Timeout t1)) in *.
  change (fold_left step es m1) with (run m1 es).
  destruct (run_timers_prefix es m1 Hes) as (l & El).
  rewrite T1 in El. simpl in El.
  destruct (fire_head (run m1 es) (b + 80) t2 l El Hb)
    as (P2 & S2 & L2 & B2 & _).
  simpl fold_left. auto.
Qed.

Lemma X20_second_timer_witness :
  score (state (run dead_at_1000
                  ([Flap 1010; Flap 1050; Timeout 1090]
                   ++ [AnimationFrame 1100 1100 0.5 0; Flap 1110]
                   ++ [Timeout 1130]))) = 0%Z.
Proof.
  apply (X20_second_timer_resets_the_running_game dead_at_1000
           1010 1050 1090 1130 [AnimationFrame 1100 1100 0.5 0; Flap 1110]).
  - reflexivity.
  - reflexivity.
  - vm_compute. discriminate.
  - vm_compute. discriminate.
  - repeat constructor.
Defined.

(** ** The geometry of a pipe hit *)

Section Geometry.

Variables (bx by_ br : Q) (p : Pipe.t).
Hypothesis Htop : 0 <= Pipe.gapTop p.
Hypothesis Hbot : Pipe.gapBot p <= CFG.GROUND_Y.
Hypothesis Hrad : 0 < br.

Ltac open_clamps :=
  unfold circle_hits, sqdist, closest_x, closest_y, clamp,
    top_rect, bottom_rect in *;
  cbn [x0 x1 y0 y1] in *;
  repeat match goal with
         | H : context [?a <? ?b] |- _ =>
             let E := fresh "E" in
             destruct (a <? b) eqn:E;
             [apply Qltb_iff in E | apply Qltb_false_iff in E]
         | |- context [?a <? ?b] =>
             let E := fresh "E" in
             destruct (a <? b) eqn:E;
             [apply Qltb_iff in E | apply Qltb_false_iff in E]
         end;
  unfold CFG.PIPE_W, CFG.GROUND_Y in *.

Lemma inside_gap_no_hit :
  Pipe.gapTop p + br <= by_ -> by_ <= Pipe.gapBot p - br ->
  pipe_collision bx by_ br p = false.
Proof.
  intros H1 H2. destruct (pipe_collision bx by_ br p) eqn:E; [|reflexivity].
  apply (pipe_collision_iff bx by_ br p Htop Hbot) in E.
  exfalso. destruct E as [E|E]; open_clamps; nra.
Qed.

Lemma beside_pipe_no_hit :
  bx + br <= Pipe.x p \/ Pipe.x p + CFG.PIPE_W + br <= bx ->
  pipe_collision bx by_ br p = false.
Proof.
  intros H. destruct (pipe_collision bx by_ br p) eqn:E; [|reflexivity].
  apply (pipe_collision_iff bx by_ br p Htop Hbot) in E.
  exfalso. destruct H as [H|H]; destruct E as [E|E]; open_clamps;
    pose proof (square_nonneg (by_ - 0));
    pose proof (square_nonneg (by_ - Pipe.gapTop p));
    pose proof (square_nonneg (by_ - Pipe.gapBot p));
    pose proof (square_nonneg (by_ - 520));
    pose proof (square_nonneg (by_ - by_));
    nra.
Qed.

Lemma over_pipe_hit_iff :
  Pipe.x p <= bx -> bx <= Pipe.x p + CFG.PIPE_W ->
  0 <= by_ -> by_ <= CFG.GROUND_Y ->
  pipe_collision bx by_ br p = true <->
  by_ - br < Pipe.gapTop p \/ Pipe.gapBot p < by_ + br.
Proof.
  intros Hx1 Hx2 Hy1 Hy2.
  rewrite (pipe_collision_iff bx by_ br p Htop Hbot).
  split.
  - intros [E|E]; open_clamps;
      try (left; lra); try (right; lra);
      [left | right]; nra.
  - intros [H|H]; [left | right]; open_clamps; nra.
Qed.

End Geometry.

(** X21. The pipe test, for a pipe whose gap lies between the ceiling and
    the ground and a positive radius.  A circle that fits vertically inside
    the gap hits nothing, wherever it is horizontally.  A circle that is
    horizontally clear of the pipe by its radius hits nothing, whatever its
    height.  And when the centre is over the pipe (and between the ceiling
    and the ground) the pipe is hit exactly when the circle reaches
    strictly above [gapTop] or strictly below [gapBot]. *)
Theorem X21_pipe_hit_geometry (bx by_ br : Q) (p : Pipe.t) :
  0 <= Pipe.gapTop p -> Pipe.gapBot p <= CFG.GROUND_Y -> 0 < br ->
  (Pipe.gapTop p + br <= by_ -> by_ <= Pipe.gapBot p - br ->
   pipe_collision bx by_ br p = false) /\
  (bx + br <= Pipe.x p \/ Pipe.x p + CFG.PIPE_W + br <= bx ->
   pipe_collision bx by_ br p = false) /\
  (Pipe.x p <= bx -> bx <= Pipe.x p + CFG.PIPE_W ->
   0 <= by_ -> by_ <= CFG.GROUND_Y ->
   pipe_collision bx by_ br p = true <->
   by_ - br < Pipe.gapTop p \/ Pipe.gapBot p < by_ + br).
Proof.
  intros Ht Hb Hr. split; [|split].
  - apply inside_gap_no_hit; assumption.
  - apply beside_pipe_no_hit; assumption.
  - apply over_pipe_hit_iff; assumption.
Qed.

Lemma X21_pipe_hit_witness :
  pipe_collision 90 214 14 (Pipe.mk 80 200 348 false) = false /\
  pipe_collision 90 213 14 (Pipe.mk 80 200 348 false) = true.
Proof.
  destruct (X21_pipe_hit_geometry 90 214 14 (Pipe.mk 80 200 348 false))
    as (H1 & _); try (vm_compute; discriminate); try (vm_compute; reflexivity).
  destruct (X21_pipe_hit_geometry 90 213 14 (Pipe.mk 80 200 348 false))
    as (_ & _ & H2); try (vm_compute; discriminate);
    try (vm_compute; reflexivity).
  split.
  - apply H1; vm_compute; discriminate.
  - apply H2; try (vm_compute; discriminate).
    left. vm_compute. reflexivity.
Defined.

(** ** No collision while PLAYING *)

Section CollisionFree.

Lemma checkCollision_position (b b' : Bird.t) (ps : list Pipe.t) :
  Bird.x b' = Bird.x b -> Bird.y b' = Bird.y b ->
  checkCollision b' ps = checkCollision b ps.
Proof. intros Hx Hy. unfold checkCollision. rewrite Hx, Hy. reflexivity. Qed.

Lemma checkCollision_open_sky (b : Bird.t) :
  250 <= Bird.y b -> Bird.y b <= 270 -> checkCollision b [] = false.
Proof.
  intros H1 H2. unfold checkCollision.
  assert (E1 : (CFG.GROUND_Y <=? Bird.y b + CFG.BIRD_RADIUS) = false).
  { apply Qleb_false_iff. unfold CFG.GROUND_Y, CFG.BIRD_RADIUS. lra. }
  assert (E2 : (Bird.y b - CFG.BIRD_RADIUS <=? 0) = false).
  { apply Qleb_false_iff. unfold CFG.BIRD_RADIUS. lra. }
  rewrite E1, E2. reflexivity.
Qed.

Lemma idle_collision_free (timestamp sinv : Q) (m : machine) :
  -1 <= sinv -> sinv <= 1 ->
  collision_free m -> collision_free (idle timestamp sinv m).
Proof.
  intros Hs1 Hs2 (Hst & Hpl). unfold collision_free, idle.
  destruct (phase (state m)) eqn:Ep; cbn [Phase_eqb].
  - simpl. split; [|discriminate]. intros _.
    destruct (Hst eq_refl) as (_ & _ & Hn).
    destruct (CFG.WING_SPEED <=? _); simpl; repeat split; try exact Hn; lra.
  - simpl. split; [discriminate | intros _; apply Hpl; reflexivity].
  - simpl. split; discriminate.
Qed.

Lemma update_collision_free (dt now rnd : Q) (m : machine) :
  collision_free m -> collision_free (update dt now rnd m).
Proof.
  intros H. destruct (phase (state m)) eqn:Ep;
    try (rewrite update_not_playing by congruence; exact H).
  unfold collision_free. rewrite (update_phase dt now rnd m Ep).
  rewrite (update_playing dt now rnd m Ep). cbv zeta.
  change (bird (state (after_loop dt now rnd m)))
    with (update_bird dt (bird (state m))).
  change (pipes (state (after_loop dt now rnd m)))
    with (omap tick_pipe (spawned now rnd (state m))).
  destruct (checkCollision _ _) eqn:Ec; split; try discriminate.
  intros _. exact Ec.
Qed.

Lemma step_collision_free (m : machine) (e : event) :
  event_in_range e -> collision_free m -> collision_free (step m e).
Proof.
  intros He H. destruct e as [t | ts t rnd sinv | t]; simpl.
  - destruct H as (Hst & Hpl). unfold handleFlap, collision_free.
    destruct (phase (state m)) eqn:Ep; cbn [Phase_eqb]; simpl.
    + split; [discriminate|]. intros _.
      destruct (Hst eq_refl) as (H1 & H2 & ->).
      rewrite (checkCollision_position (bird (state m))) by reflexivity.
      apply checkCollision_open_sky; assumption.
    + destruct (Bird.alive (bird (state m))); simpl; rewrite ?Ep;
        (split; [discriminate|]); intros _.
      * rewrite (checkCollision_position (bird (state m))) by reflexivity.
        apply Hpl. reflexivity.
      * apply Hpl. reflexivity.
    + rewrite Ep. split; discriminate.
  - destruct He as (_ & _ & Hs1 & Hs2). rewrite loop_idle_update.
    apply update_collision_free, idle_collision_free; assumption.
  - unfold fire_timer. destruct (timers m) as [|[due cb] rest]; [exact H|].
    destruct (due <=? t); [|exact H].
    destruct cb. unfold collision_free. simpl.
    split; [discriminate | intros _; reflexivity].
Qed.

Lemma run_collision_free (es : list event) (m : machine) :
  Forall event_in_range es -> collision_free m -> collision_free (run m es).
Proof.
  revert m. induction es as [|e es IH]; intros m Hes H; simpl; [exact H|].
  inversion Hes as [|? ? He Hes']; subst.
  apply IH; [exact Hes' | apply step_collision_free; assumption].
Qed.

End CollisionFree.

(** X22. Collisions are caught in the tick in which they happen: in every
    state reached from boot (with [Math.sin] between -1 and 1) whose phase
    is PLAYING, [checkCollision] is false for the bird and the pipes of
    that state; in particular the bird is strictly between the ceiling and
    the ground. *)
Theorem X22_playing_states_are_collision_free
  (ls : Storage) (now now' : Q) (es : list event) :
  Forall event_in_range es ->
  phase (state (run (boot ls now now') es)) = PLAYING ->
  checkCollision (bird (state (run (boot ls now now') es)))
                 (pipes (state (run (boot ls now now') es))) = false /\
  CFG.BIRD_RADIUS < Bird.y (bird (state (run (boot ls now now') es))) /\
  Bird.y (bird (state (run (boot ls now now') es))) + CFG.BIRD_RADIUS
  < CFG.GROUND_Y.
Proof.
  intros Hes Hp.
  assert (H0 : collision_free (boot ls now now')).
  { unfold collision_free. simpl. split; [|discriminate].
    intros _. repeat split; try reflexivity; vm_compute; discriminate. }
  destruct (run_collision_free es (boot ls now now') Hes H0) as (_ & H).
  specialize (H Hp). split; [exact H|].
  destruct (Qlt_le_dec
              (Bird.y (bird (state (run (boot ls now now') es)))
               + CFG.BIRD_RADIUS) CFG.GROUND_Y) as [Hg|Hg].
  - split; [|exact Hg].
    destruct (Qlt_le_dec CFG.BIRD_RADIUS
                (Bird.y (bird (state (run (boot ls now now') es)))))
      as [Hc|Hc]; [exact Hc|].
    exfalso.
    assert (E : checkCollision (bird (state (run (boot ls now now') es)))
                  (pipes (state (run (boot ls now now') es))) = true).
    { apply checkCollision_iff. right. left. lra. }
    congruence.
  - exfalso.
    assert (E : checkCollision (bird (state (run (boot ls now now') es)))
                  (pipes (state (run (boot ls now now') es))) = true).
    { apply checkCollision_iff. left. exact Hg. }
    congruence.
Qed.

Lemma X22_collision_free_witness :
  checkCollision
    (bird (state (run (boot empty_store 0 0)
                    [AnimationFrame 16 16 0.5 0.3; Flap 20;
                     AnimationFrame 32 32 0.5 0])))
    (pipes (state (run (boot empty_store 0 0)
                     [AnimationFrame 16 16 0.5 0.3; Flap 20;
                      AnimationFrame 32 32 0.5 0]))) = false.
Proof.
  apply (X22_playing_states_are_collision_free empty_store 0 0
           [AnimationFrame 16 16 0.5 0.3; Flap 20; AnimationFrame 32 32 0.5 0]).
  - repeat constructor; vm_compute; discriminate.
  - vm_compute. reflexivity.
Defined.

(** ** Closed forms: free fall and the life of a pipe *)

Section ClosedForms.

Lemma inject_nat_S (n : nat) :
  inject_Z (Z.of_nat (S n)) == inject_Z (Z.of_nat n) + 1.
Proof.
  rewrite Nat2Z.inj_succ. unfold Z.succ. rewrite inject_Z_plus. reflexivity.
Qed.

Lemma free_fall_vy (dt : Q) (n : nat) (b : Bird.t) :
  Bird.vy (Nat.iter (S n) (update_bird dt) b)
  == Qmin (Bird.vy b + inject_Z (Z.of_nat (S n)) * CFG.GRAVITY)
          CFG.MAX_FALL_VEL.
Proof.
  assert (Hstep : forall b0 : Bird.t,
             Bird.vy (update_bird dt b0)
             = Qmin (Bird.vy b0 + CFG.GRAVITY) CFG.MAX_FALL_VEL).
  { intros b0. unfold update_bird. destruct (CFG.WING_SPEED <=? _);
      reflexivity. }
  induction n as [|n IH].
  - simpl Nat.iter. rewrite Hstep.
    change (inject_Z (Z.of_nat 1)) with 1.
    destruct (Q.min_spec (Bird.vy b + CFG.GRAVITY) CFG.MAX_FALL_VEL)
      as [(H1 & ->) | (H1 & ->)];
      destruct (Q.min_spec (Bird.vy b + 1 * CFG.GRAVITY)
                  CFG.MAX_FALL_VEL) as [(H2 & ->) | (H2 & ->)];
      lra.
  - rewrite Nat.iter_succ, Hstep.
    pose proof (inject_nat_S (S n)) as Hn.
    set (v := Bird.vy (Nat.iter (S n) (update_bird dt) b)) in *.
    set (k := inject_Z (Z.of_nat (S n))) in *.
    set (k' := inject_Z (Z.of_nat (S (S n)))) in *.
    assert (Hk : 0 <= k).
    { unfold k. change 0 with (inject_Z 0). rewrite <- Zle_Qle. lia. }
    destruct (Q.min_spec (v + CFG.GRAVITY) CFG.MAX_FALL_VEL)
      as [(H1 & ->) | (H1 & ->)];
      destruct (Q.min_spec (Bird.vy b + k' * CFG.GRAVITY) CFG.MAX_FALL_VEL)
        as [(H2 & ->) | (H2 & ->)];
      destruct (Q.min_spec (Bird.vy b + k * CFG.GRAVITY) CFG.MAX_FALL_VEL)
        as [(H3 & E3) | (H3 & E3)];
      rewrite E3 in IH; unfold CFG.GRAVITY, CFG.MAX_FALL_VEL in *; nra.
Qed.

Lemma threshold_ticks (z c : Z) (edge speed bound : Q) :
  0 < speed ->
  inject_Z (c - 1) * speed <= edge - bound ->
  edge - bound < inject_Z c * speed ->
  edge - inject_Z z * speed < bound <-> (c <= z)%Z.
Proof.
  intros Hs Hlo Hhi. split.
  - intros H. destruct (Z_lt_le_dec z c) as [Hlt|Hle]; [|exact Hle].
    exfalso. assert (Hz : (z <= c - 1)%Z) by lia.
    rewrite Zle_Qle in Hz. nra.
  - intros H. rewrite Zle_Qle in H. nra.
Qed.

Lemma created_passed_in (rnd : Q) (k : nat) :
  passed_in k (createPipe rnd) <-> (149 <= k)%nat.
Proof.
  rewrite passed_in_closed_form.
  change (right_edge (createPipe rnd)) with (CFG.PIPE_SPAWN_X + CFG.PIPE_W).
  rewrite (threshold_ticks (Z.of_nat (S k)) 150
             (CFG.PIPE_SPAWN_X + CFG.PIPE_W) CFG.PIPE_SPEED CFG.BIRD_X);
    try (vm_compute; (reflexivity || discriminate)).
  lia.
Qed.

Lemma removed_in_closed_form (k : nat) (p : Pipe.t) :
  removed_in k p <->
  right_edge p - inject_Z (Z.of_nat (S k)) * CFG.PIPE_SPEED < -20.
Proof.
  unfold removed_in, right_edge. rewrite x_after_closed_form.
  split; intros H; lra.
Qed.

Lemma created_removed_in (rnd : Q) (k : nat) :
  removed_in k (createPipe rnd) <-> (191 <= k)%nat.
Proof.
  rewrite removed_in_closed_form.
  change (right_edge (createPipe rnd)) with (CFG.PIPE_SPAWN_X + CFG.PIPE_W).
  rewrite (threshold_ticks (Z.of_nat (S k)) 192
             (CFG.PIPE_SPAWN_X + CFG.PIPE_W) CFG.PIPE_SPEED (-20));
    try (vm_compute; (reflexivity || discriminate)).
  lia.
Qed.

Lemma removed_in_S (k : nat) (p q : Pipe.t) :
  Pipe.x q = Pipe.x p - CFG.PIPE_SPEED ->
  removed_in (S k) p <-> removed_in k q.
Proof.
  intros Hx. unfold removed_in, x_after. rewrite Hx.
  rewrite (Nat.iter_succ_r (S k)). reflexivity.
Qed.

(** A pipe is in the list for as many ticks as it takes its right edge
    to get left of -20. *)
Lemma trace_length (n k0 : nat) (p : Pipe.t) :
  removed_in k0 p -> (forall j : nat, (j < k0)%nat -> ~ removed_in j p) ->
  length (score_trace n p) = Nat.min n (S k0).
Proof.
  revert k0 p. induction n as [|n IH]; intros k0 p Hk Hj; [reflexivity|].
  simpl score_trace. pose proof (pipe_body_eq p) as E. cbv zeta in E.
  rewrite E. clear E.
  assert (H0 : removed_in 0 p <->
               (Pipe.x p - CFG.PIPE_SPEED + CFG.PIPE_W <? -20) = true).
  { unfold removed_in, x_after. simpl. symmetry. apply Qltb_iff. }
  destruct k0 as [|k0].
  - apply H0 in Hk. rewrite Hk. simpl. lia.
  - destruct (Pipe.x p - CFG.PIPE_SPEED + CFG.PIPE_W <? -20) eqn:Eo.
    { exfalso. apply (Hj 0%nat); [lia | apply H0; reflexivity]. }
    simpl length. rewrite (IH k0).
    + lia.
    + apply (removed_in_S k0 p); [reflexivity | exact Hk].
    + intros j Hlt Hr. apply (Hj (S j)); [lia|].
      eapply removed_in_S; cycle 1; [exact Hr | reflexivity].
Qed.

End ClosedForms.

(** X23. Terminal velocity.  A tick of the physics statements never
    lowers a velocity that is at most [MAX_FALL_VEL], and keeps a velocity
    of 12 at 12.  Starting from any velocity of at least [JUMP_VEL] (-8.5),
    that is from any velocity the game reaches, 49 or more ticks without
    a flap bring the velocity to exactly 12, where it stays. *)
Theorem X23_terminal_velocity (dt : Q) (b : Bird.t) :
  (Bird.vy b <= 12 -> Bird.vy b <= Bird.vy (update_bird dt b)) /\
  (Bird.vy b == 12 -> Bird.vy (update_bird dt b) == 12) /\
  (forall n : nat,
     -8.5 <= Bird.vy b -> (49 <= n)%nat ->
     Bird.vy (Nat.iter n (update_bird dt) b) == 12).
Proof.
  assert (Hstep : Bird.vy (update_bird dt b)
                  = Qmin (Bird.vy b + CFG.GRAVITY) CFG.MAX_FALL_VEL).
  { unfold update_bird. destruct (CFG.WING_SPEED <=? _); reflexivity. }
  split; [|split].
  - intros H. rewrite Hstep.
    apply Q.min_glb; unfold CFG.GRAVITY, CFG.MAX_FALL_VEL; lra.
  - intros H. rewrite Hstep. rewrite Q.min_r; [reflexivity|].
    unfold CFG.GRAVITY, CFG.MAX_FALL_VEL. lra.
  - intros n Hv Hn. destruct n as [|n]; [lia|].
    rewrite (free_fall_vy dt n b).
    assert (Hk : 49 <= inject_Z (Z.of_nat (S n))).
    { change 49 with (inject_Z 49). rewrite <- Zle_Qle. lia. }
    rewrite Q.min_r; [reflexivity|].
    unfold CFG.GRAVITY, CFG.MAX_FALL_VEL. lra.
Qed.

Lemma X23_terminal_velocity_witness :
  Bird.vy (Nat.iter 49 (update_bird 16) (bird_at 260 (-8.5))) == 12.
Proof.
  destruct (X23_terminal_velocity 16 (bird_at 260 (-8.5))) as (_ & _ & H).
  apply (H 49%nat); [vm_compute; discriminate | lia].
Defined.

(** X24. The life of a pipe made by [createPipe], whatever its gap: it
    gets its score increment in its 150th tick (index 149) and in no
    other, and it is in the list for 192 ticks, the last of which
    removes it. *)
Theorem X24_life_of_a_spawned_pipe (rnd : Q) (n k : nat) :
  (score_trace n (createPipe rnd) !! k = Some 1%Z <->
   k = 149%nat /\ (149 < n)%nat) /\
  length (score_trace n (createPipe rnd)) = Nat.min n 192 /\
  (tick_pipe (Nat.iter k (fun p => fst (fst (pipe_body p))) (createPipe rnd))
   = None <-> (191 <= k)%nat).
Proof.
  split; [|split].
  - rewrite (trace_first_pass n k (createPipe rnd) eq_refl).
    rewrite created_passed_in. split.
    + intros (H1 & H2 & H3). split; [|lia].
      destruct (Nat.eq_dec k 149%nat) as [E|E]; [exact E|].
      exfalso. apply (H3 149%nat); [lia|].
      apply created_passed_in. lia.
    + intros (-> & H). split; [lia|]. split; [lia|].
      intros j Hj Hp. apply created_passed_in in Hp. lia.
  - apply trace_length.
    + apply created_removed_in. lia.
    + intros j Hj Hr. apply created_removed_in in Hr. lia.
  - rewrite <- created_removed_in. unfold removed_in.
    change (x_after (S k) (Pipe.x (createPipe rnd)))
      with (x_after k (Pipe.x (createPipe rnd)) - CFG.PIPE_SPEED).
    assert (Hx : forall (j : nat) (p : Pipe.t),
               Pipe.x (Nat.iter j (fun p => fst (fst (pipe_body p))) p)
               = x_after j (Pipe.x p)).
    { induction j as [|j IH]; intros p; [reflexivity|].
      change (x_after (S j) (Pipe.x p))
        with (x_after j (Pipe.x p) - CFG.PIPE_SPEED).
      rewrite <- IH.
      change (Nat.iter (S j) (fun p => fst (fst (pipe_body p))) p)
        with (fst (fst (pipe_body
                          (Nat.iter j (fun p => fst (fst (pipe_body p))) p)))).
      pose proof (pipe_body_eq
                    (Nat.iter j (fun p => fst (fst (pipe_body p))) p)) as E.
      cbv zeta in E. rewrite E. reflexivity. }
    unfold tick_pipe.
    pose proof (pipe_body_eq
                  (Nat.iter k (fun p => fst (fst (pipe_body p)))
                     (createPipe rnd))) as E.
    cbv zeta in E. rewrite E. clear E. rewrite Hx.
    destruct (x_after k (Pipe.x (createPipe rnd)) - CFG.PIPE_SPEED
              + CFG.PIPE_W <? -20) eqn:Eo.
    + apply Qltb_iff in Eo. split; [intros _; exact Eo | reflexivity].
    + apply Qltb_false_iff in Eo.
      split; [discriminate | intros H; destruct (Qle_not_lt _ _ Eo H)].
Qed.

Lemma X24_life_witness :
  score_trace 160 (createPipe 0.5) !! 149%nat = Some 1%Z.
Proof.
  destruct (X24_life_of_a_spawned_pipe 0.5 160 149) as (H & _).
  apply H. split; [reflexivity | lia].
Defined.

(** X25. On the start screen the bird only bobs: in every state reached
    from boot (with [Math.sin] between -1 and 1) whose phase is START, the
    bird's [y] is within 10 pixels of 260. *)
Theorem X25_idle_bird_bobs_around_260
  (ls : Storage) (now now' : Q) (es : list event) :
  Forall event_in_range es ->
  phase (state (run (boot ls now now') es)) = START ->
  250 <= Bird.y (bird (state (run (boot ls now now') es))) /\
  Bird.y (bird (state (run (boot ls now now') es))) <= 270.
Proof.
  intros Hes Hp.
  assert (H0 : collision_free (boot ls now now')).
  { unfold collision_free. simpl. split; [|discriminate].
    intros _. repeat split; try reflexivity; vm_compute; discriminate. }
  destruct (run_collision_free es (boot ls now now') Hes H0) as (H & _).
  destruct (H Hp) as (H1 & H2 & _). split; assumption.
Qed.

Lemma X25_idle_bird_witness :
  250 <= Bird.y (bird (state (run (boot empty_store 0 0)
                                [AnimationFrame 16 16 0.5 (-0.7)]))).
Proof.
  apply (X25_idle_bird_bobs_around_260 empty_store 0 0
           [AnimationFrame 16 16 0.5 (-0.7)]).
  - repeat constructor; vm_compute; discriminate.
  - reflexivity.
Defined.
